(** * shadcn-concepts: the form-to-table pipeline of [src/App.tsx]

    A shallow embedding of the registration form of [App.tsx]: the zod
    schema [formSchema], the react-hook-form state behind [useForm], the
    handlers [onSubmit] and [onError], the controls that feed the form
    and the table body that renders [tableData].

    The libraries are the ones of the repository's [package.json]
    (zod ^4.0.17, react-hook-form ^7.62.0, @hookform/resolvers ^5.2.1);
    each library function the application calls is modelled next to the
    call it serves, with the behaviour of that version. *)

From Stdlib Require Import ZArith Ascii String DecimalString DecimalZ.
From stdpp Require Import gmap strings list fin_maps.

Local Open Scope string_scope.
Local Open Scope Z_scope.

(** ** JavaScript values and built-ins *)

Module JS.

(** The values a field of the form can hold at run time: nothing, what
    a checkbox emits, the text of an input or a select, a [Date].
    A [Date] carries its time value in milliseconds since the epoch,
    or [None] for an Invalid Date (time value NaN).  Strings are
    sequences of code units; [String.length] is JavaScript's
    [.length]. *)
Inductive jsval :=
| VUndefined
| VNull
| VBool (b : bool)
| VString (s : string)
| VDate (t : option Z).

#[global] Instance jsval_eq_dec : EqDecision jsval.
Proof. solve_decision. Defined.

(** [obj[key]]: a missing key reads as [undefined]. *)
Definition get (obj : gmap string jsval) (key : string) : jsval :=
  default VUndefined (obj !! key).

(** [Number.prototype.toString] on an integral number, as
    [Date.now().toString()] uses it: plain decimal digits. *)
Definition toString (n : Z) : string :=
  NilZero.string_of_int (Z.to_int n).

(** Decimal digits of a non-negative number, zero-padded on the left
    to [width] digits. *)
Fixpoint pad (width : nat) (n : Z) : string :=
  match width with
  | O => ""
  | S w => pad w (n / 10) +:+ NilZero.string_of_int (Z.to_int (n mod 10))
  end.

Definition msPerDay : Z := 86400000.

(** Year, month (1-12) and day of the proleptic Gregorian calendar
    for a day number counted from 1970-01-01. *)
Definition civil_from_days (day : Z) : Z * Z * Z :=
  let z := day + 719468 in
  let era := z / 146097 in
  let doe := z mod 146097 in
  let yoe := (doe - doe / 1460 + doe / 36524 - doe / 146096) / 365 in
  let doy := doe - (365 * yoe + yoe / 4 - yoe / 100) in
  let mp := (5 * doy + 2) / 153 in
  let d := doy - (153 * mp + 2) / 5 + 1 in
  let m := if mp <? 10 then mp + 3 else mp - 9 in
  let y := yoe + era * 400 in
  (if m <=? 2 then y + 1 else y, m, d).

(** [Date.prototype.toISOString] of a valid time value:
    [YYYY-MM-DDTHH:mm:ss.sssZ], with the expanded year [±YYYYYY]
    outside 0..9999. *)
Definition toISOString (t : Z) : string :=
  let '(y, m, d) := civil_from_days (t / msPerDay) in
  let ms := t mod msPerDay in
  let year :=
    if (0 <=? y) && (y <=? 9999) then pad 4 y
    else (if y <? 0 then "-" else "+") +:+ pad 6 (Z.abs y) in
  year +:+ "-" +:+ pad 2 m +:+ "-" +:+ pad 2 d +:+ "T"
    +:+ pad 2 (ms / 3600000) +:+ ":" +:+ pad 2 (ms / 60000 mod 60)
    +:+ ":" +:+ pad 2 (ms / 1000 mod 60) +:+ "." +:+ pad 3 (ms mod 1000)
    +:+ "Z".

(** The time value of [new Date("1900-01-01")]. *)
Definition date_1900_01_01 : Z := -2208988800000.

End JS.
Export JS.

(** ** Regular expressions

    Enough of JavaScript's [RegExp] for zod's e-mail pattern: character
    classes, sequence, alternation, repetition, and the negative
    lookaheads at the start of a pattern anchored with [^] and [$],
    which amount to intersecting with a complement. *)

Module Regex.

Inductive regex :=
| Never
| Eps
| Chr (cls : ascii → bool)
| Cat (r1 r2 : regex)
| Alt (r1 r2 : regex)
| Star (r : regex)
| And (r1 r2 : regex)
| Not (r : regex).

Fixpoint nullable (r : regex) : bool :=
  match r with
  | Never => false
  | Eps => true
  | Chr _ => false
  | Cat r1 r2 => nullable r1 && nullable r2
  | Alt r1 r2 => nullable r1 || nullable r2
  | Star _ => true
  | And r1 r2 => nullable r1 && nullable r2
  | Not r => negb (nullable r)
  end.

(** Sequence and alternation that drop a branch which can no longer
    match, so that derivatives stay small. *)
Definition cat (r1 r2 : regex) : regex :=
  match r1 with
  | Never => Never
  | Eps => r2
  | _ => Cat r1 r2
  end.

Definition alt (r1 r2 : regex) : regex :=
  match r1, r2 with
  | Never, _ => r2
  | _, Never => r1
  | _, _ => Alt r1 r2
  end.

(** Brzozowski derivative: what is left to match after reading [c]. *)
Fixpoint deriv (c : ascii) (r : regex) : regex :=
  match r with
  | Never => Never
  | Eps => Never
  | Chr cls => if cls c then Eps else Never
  | Cat r1 r2 =>
      if nullable r1 then alt (cat (deriv c r1) r2) (deriv c r2)
      else cat (deriv c r1) r2
  | Alt r1 r2 => alt (deriv c r1) (deriv c r2)
  | Star r1 => cat (deriv c r1) (Star r1)
  | And r1 r2 => And (deriv c r1) (deriv c r2)
  | Not r1 => Not (deriv c r1)
  end.

(** [/^r$/.test(s)] *)
Fixpoint test (r : regex) (s : string) : bool :=
  match s with
  | EmptyString => nullable r
  | String c s' => test (deriv c r) s'
  end.

Definition plus (r : regex) : regex := Cat r (Star r).

Definition code (c : ascii) : N := N_of_ascii c.
Definition between (lo hi : N) (c : ascii) : bool :=
  ((lo <=? code c) && (code c <=? hi))%N.
Definition char (x : ascii) (c : ascii) : bool := (code c =? code x)%N.

Definition upper := between 65 90.
Definition lower := between 97 122.
Definition digit := between 48 57.
Definition letter c := upper c || lower c.
Definition alnum c := letter c || digit c.
(** [.] matches everything but a line terminator. *)
Definition dot c := negb (char "010" c || char "013" c).
Definition anychar (_ : ascii) := true.

End Regex.

(** ** zod 4: the schema constructors [formSchema] is built from *)

Module Zod.
Import Regex.

Inductive issue_code := invalid_type | too_small | invalid_format.

#[global] Instance issue_code_eq_dec : EqDecision issue_code.
Proof. solve_decision. Defined.

Record issue := Issue {
  code : issue_code;
  path : list string;
  message : string
}.

(** The object literal a constructor or a check takes.  zod 4 reads
    [error] and, as its deprecated alias, [message];
    [required_error] and [invalid_type_error] are parameters of zod 3
    that zod 4 has dropped: [normalizeParams] never looks at them. *)
Record params := Params {
  error : option string;
  param_message : option string;
  required_error : option string;
  invalid_type_error : option string
}.

Definition no_params : params := Params None None None None.
Definition with_message (m : string) : params :=
  Params None (Some m) None None.
Definition with_required_error (m : string) : params :=
  Params None None (Some m) None.

(** The custom error of a schema or check, if any. *)
Definition normalizeParams (p : params) : option string :=
  match param_message p with
  | Some m => Some m
  | None => error p
  end.

(** The default (English) locale. *)
Definition parsedType (v : jsval) : string :=
  match v with
  | VUndefined => "undefined"
  | VNull => "null"
  | VBool _ => "boolean"
  | VString _ => "string"
  | VDate _ => "Date"
  end.

Definition locale_invalid_type (expected : string) (input : jsval) : string :=
  "Invalid input: expected " +:+ expected +:+ ", received "
    +:+ parsedType input.
Definition locale_too_small (minimum : Z) : string :=
  "Too small: expected string to have >=" +:+ toString minimum
    +:+ " characters".
Definition locale_invalid_email : string := "Invalid email address".

(** [finalizeIssue]: the custom error of the schema or check that
    raised the issue, else the locale's message. *)
Definition finalizeIssue (c : issue_code) (custom : option string)
    (locale : string) : issue :=
  Issue c [] (default locale custom).

(** What a schema has made of its input so far.  [value] is [None]
    once the input has the wrong type, and checks are then skipped. *)
Record payload (A : Type) := Payload {
  value : option A;
  issues : list issue
}.
Arguments Payload {A} _ _.
Arguments value {A} _.
Arguments issues {A} _.

Definition ZodType (A : Type) : Type := jsval → payload A.

Definition expect {A} (p : params) (expected : string) (input : jsval)
    : payload A :=
  Payload None
    [finalizeIssue invalid_type (normalizeParams p)
       (locale_invalid_type expected input)].

(** [z.string(params)] *)
Definition string_ (p : params) : ZodType string := λ input,
  match input with
  | VString s => Payload (Some s) []
  | _ => expect p "string" input
  end.

(** [z.boolean(params)] *)
Definition boolean (p : params) : ZodType bool := λ input,
  match input with
  | VBool b => Payload (Some b) []
  | _ => expect p "boolean" input
  end.

(** [z.date(params)]: a [Date] whose time value is not NaN; the
    output is that time value. *)
Definition date (p : params) : ZodType Z := λ input,
  match input with
  | VDate (Some t) => Payload (Some t) []
  | _ => expect p "date" input
  end.

(** A check runs on a value of the right type and adds its issue to
    those already raised. *)
Definition check {A} (c : A → option issue) (schema : ZodType A)
    : ZodType A := λ input,
  let r := schema input in
  match value r with
  | Some a =>
      match c a with
      | Some i => Payload (Some a) (issues r ++ [i])
      | None => r
      end
  | None => r
  end.

(** [.min(minimum, params)] *)
Definition min (minimum : Z) (p : params) : ZodType string → ZodType string :=
  check (λ s,
    if Z.of_nat (String.length s) <? minimum
    then Some (finalizeIssue too_small (normalizeParams p)
                 (locale_too_small minimum))
    else None).

(** [regexes.email].  The pattern is anchored at both ends and reads,
    piece by piece: not a dot next, [(?!\.)]; no two dots in a row
    further on, [(?!.*\.\.)]; any number of [A-Za-z0-9_'+-.]; one of
    [A-Za-z0-9_+-]; an [@]; one or more labels, each an [A-Za-z0-9],
    any number of [A-Za-z0-9-] and a dot; two or more [A-Za-z]. *)
Definition local_char c :=
  alnum c || char "_" c || char "'" c || char "+" c || char "-" c
    || char "." c.
Definition local_last c := alnum c || char "_" c || char "+" c || char "-" c.
Definition label_char c := alnum c || char "-" c.

Definition email_regex : regex :=
  And (Not (Cat (Chr (char ".")) (Star (Chr anychar))))
 (And (Not (Cat (Star (Chr dot))
             (Cat (Chr (char ".")) (Cat (Chr (char "."))
               (Star (Chr anychar))))))
      (Cat (Star (Chr local_char))
      (Cat (Chr local_last)
      (Cat (Chr (char "@"))
      (Cat (plus (Cat (Chr alnum)
                 (Cat (Star (Chr label_char)) (Chr (char ".")))))
      (Cat (Chr letter) (plus (Chr letter)))))))).

(** [.email(params)] *)
Definition email (p : params) : ZodType string → ZodType string :=
  check (λ s,
    if test email_regex s then None
    else Some (finalizeIssue invalid_format (normalizeParams p)
                 locale_invalid_email)).

(** [.default(d)]: an [undefined] input yields [d] at once. *)
Definition default_ {A} (d : A) (schema : ZodType A) : ZodType A := λ input,
  match input with
  | VUndefined => Payload (Some d) []
  | _ => schema input
  end.

(** [z.object(shape)], one property after the other in the order of
    the shape: each is parsed from [input[key]], its issues get [key]
    in front of their path, and all of them are kept. *)
Definition prefixIssues (key : string) (l : list issue) : list issue :=
  (λ i, Issue (code i) (key :: path i) (message i)) <$> l.

Definition shape (A : Type) : Type := gmap string jsval → payload A.

Definition fields {A} (a : A) : shape A := λ _, Payload (Some a) [].

Definition property {A B} (sh : shape (A → B)) (key : string)
    (schema : ZodType A) : shape B := λ input,
  let f := sh input in
  let r := schema (get input key) in
  Payload
    (match value f, value r with
     | Some g, Some a => Some (g a)
     | _, _ => None
     end)
    (issues f ++ prefixIssues key (issues r)).

(** [schema.safeParse(input)] *)
Inductive SafeParseResult (A : Type) :=
| success (data : A)
| failure (issues : list issue).
Arguments success {A} _.
Arguments failure {A} _.

Definition safeParse {A} (schema : shape A) (input : gmap string jsval)
    : SafeParseResult A :=
  let r := schema input in
  match issues r, value r with
  | [], Some a => success a
  | l, _ => failure l
  end.

End Zod.

(** ** A state monad for the handlers *)

Module St.

Definition State (S A : Type) : Type := S → A * S.

#[global] Instance state_ret {S} : MRet (State S) := λ A a s, (a, s).
#[global] Instance state_bind {S} : MBind (State S) := λ A B f m s,
  let '(a, s') := m s in f a s'.

Definition gets {S A} (f : S → A) : State S A := λ s, (f s, s).
Definition modify {S} (f : S → S) : State S unit := λ s, (tt, f s).
Definition exec {S A} (m : State S A) (s : S) : S := snd (m s).
Definition eval {S A} (m : State S A) (s : S) : A := fst (m s).

End St.
Export St.

(** ** react-hook-form with the zod resolver *)

Module RHF.

(** One entry of [formState.errors]. *)
Record FieldError := {
  type : Zod.issue_code;
  message : string
}.

#[global] Instance FieldError_eq_dec : EqDecision FieldError.
Proof. solve_decision. Defined.

(** What a resolver returns: the parsed values with no errors, or
    the errors with no values. *)
Inductive ResolverResult (A : Type) :=
| Valid (values : A)
| Invalid (errors : gmap string FieldError).
Arguments Valid {A} _.
Arguments Invalid {A} _.

(** The [errors] of a resolver's result; [{}] when it has values. *)
Definition errors_of {A} (r : ResolverResult A) : gmap string FieldError :=
  match r with
  | Valid _ => ∅
  | Invalid errors => errors
  end.

(** [path.join('.')] *)
Fixpoint join (sep : string) (l : list string) : string :=
  match l with
  | [] => ""
  | [x] => x
  | x :: l' => x +:+ sep +:+ join sep l'
  end.

(** [parseZod4Issues]: the issues in order; a path keeps the first
    issue raised on it. *)
Fixpoint parseZod4Issues (zodErrors : list Zod.issue)
    (errors : gmap string FieldError) : gmap string FieldError :=
  match zodErrors with
  | [] => errors
  | i :: rest =>
      let _path := join "." (Zod.path i) in
      parseZod4Issues rest
        (match errors !! _path with
         | Some _ => errors
         | None =>
             <[_path := {| type := Zod.code i; message := Zod.message i |}]>
               errors
         end)
  end.

(** [zodResolver(schema)] *)
Definition zodResolver {A} (schema : Zod.shape A)
    (values : gmap string jsval) : ResolverResult A :=
  match Zod.safeParse schema values with
  | Zod.success data => Valid data
  | Zod.failure issues => Invalid (parseZod4Issues issues ∅)
  end.

Record FormState := {
  errors : gmap string FieldError;
  isSubmitted : bool;
  isSubmitSuccessful : bool;
  submitCount : nat
}.

(** The part of the form control the application touches. *)
Record Control := {
  _formValues : gmap string jsval;
  _formState : FormState
}.

Definition initialFormState : FormState :=
  {| errors := ∅; isSubmitted := false; isSubmitSuccessful := false;
     submitCount := 0 |}.

Section useForm.
(** The options of [useForm]. *)
Context {A : Type}.
Variable resolver : gmap string jsval → ResolverResult A.
Variable defaultValues : gmap string jsval.

Definition useForm : Control :=
  {| _formValues := defaultValues; _formState := initialFormState |}.

(** [form.reset()], no argument: the values go back to
    [defaultValues] and the form state starts afresh. *)
Definition reset (c : Control) : Control :=
  {| _formValues := defaultValues; _formState := initialFormState |}.

(** [field.onChange(value)] of the field [name]: the value is
    stored as it comes.  With the default modes (validate on submit,
    validate again on change) the field's error is brought up to
    date once the form has been submitted. *)
Definition field_onChange (name : string) (value : jsval)
    (c : Control) : Control :=
  let values := <[name := value]> (_formValues c) in
  let st := _formState c in
  let errs :=
    if isSubmitted st then
      match resolver values with
      | Valid _ => delete name (errors st)
      | Invalid e =>
          match e !! name with
          | Some err => <[name := err]> (errors st)
          | None => delete name (errors st)
          end
      end
    else errors st in
  {| _formValues := values;
     _formState :=
       {| errors := errs; isSubmitted := isSubmitted st;
          isSubmitSuccessful := isSubmitSuccessful st;
          submitCount := submitCount st |} |}.

(** [handleSubmit(onValid, onInvalid)], inside a program state [W]
    that holds the control.  The library calls [onValid] when the
    errors of the resolver are empty and [onInvalid] otherwise; a
    resolver returns values exactly when it returns no error. *)
Section handleSubmit.
Context {W : Type}.
Variable control : W → Control.
Variable set_control : Control → W → W.
Variable onValid : A → State W unit.
Variable onInvalid : gmap string FieldError → State W unit.

Definition set_errors (e : gmap string FieldError) : State W unit :=
  modify (λ w,
    let c := control w in
    let st := _formState c in
    set_control
      {| _formValues := _formValues c;
         _formState :=
           {| errors := e; isSubmitted := isSubmitted st;
              isSubmitSuccessful := isSubmitSuccessful st;
              submitCount := submitCount st |} |} w).

(** [_runSchema]: the resolver on the current values. *)
Definition _runSchema : State W (ResolverResult A) :=
  gets (λ w, resolver (_formValues (control w))).

(** The last step of a submission. *)
Definition submitted : State W unit :=
  modify (λ w,
    let c := control w in
    let st := _formState c in
    set_control
      {| _formValues := _formValues c;
         _formState :=
           {| errors := errors st; isSubmitted := true;
              isSubmitSuccessful := bool_decide (errors st = ∅);
              submitCount := S (submitCount st) |} |} w).

Definition handleSubmit : State W unit :=
  r ← _runSchema;
  match r with
  | Valid fieldValues =>
      set_errors ∅;;
      onValid fieldValues;;
      submitted
  | Invalid errs =>
      set_errors errs;;
      onInvalid errs;;
      submitted
  end.
End handleSubmit.
End useForm.

End RHF.

(** ** [App.tsx] *)

Module App.
Import Zod RHF.

(** [type FormData = z.infer<typeof formSchema>]; [birthDate] is the
    time value of the [Date]. *)
Record FormData := {
  name : string;
  email : string;
  birthDate : Z;
  department : string;
  isActive : bool
}.

(** [interface TableData extends FormData] *)
Record TableData := {
  formData : FormData;
  id : string;
  createdAt : string
}.

(** Step 1: [formSchema], field by field. *)
Definition name_schema : ZodType string :=
  min 2 (with_message "Name must be at least 2 characters.")
    (string_ no_params).

Definition email_schema : ZodType string :=
  Zod.email (with_message "Please enter a valid email address.")
    (string_ no_params).

Definition birthDate_schema : ZodType Z :=
  date (with_required_error "A birth date is required.").

Definition department_schema : ZodType string :=
  string_ (with_required_error "Please select a department.").

Definition isActive_schema : ZodType bool :=
  default_ false (boolean no_params).

Definition formSchema : shape FormData :=
  let s := fields Build_FormData in
  let s := property s "name" name_schema in
  let s := property s "email" email_schema in
  let s := property s "birthDate" birthDate_schema in
  let s := property s "department" department_schema in
  property s "isActive" isActive_schema.

Definition resolver : gmap string jsval → ResolverResult FormData :=
  zodResolver formSchema.

Definition defaultValues : gmap string jsval :=
  <["name" := VString ""]> (<["email" := VString ""]>
    (<["isActive" := VBool false]> ∅)).

(** What the handlers do to the world outside the component. *)
Inductive logged :=
| values_logged (values : FormData)
| errors_logged (errors : gmap string FieldError).

Inductive effect :=
| console_log (label : string) (what : logged)
| alert (text : string).

(** The state of a session: the [useState] cell, the form control,
    the system clock (the reading number [reads] is the next one) and
    what has been logged and shown. *)
Record Session := {
  tableData : list TableData;
  form : Control;
  clock : nat → Z;
  reads : nat;
  effects : list effect
}.

Definition set_form (c : Control) (w : Session) : Session :=
  {| tableData := tableData w; form := c; clock := clock w;
     reads := reads w; effects := effects w |}.

Definition setTableData (f : list TableData → list TableData)
    : State Session unit :=
  modify (λ w,
    {| tableData := f (tableData w); form := form w; clock := clock w;
       reads := reads w; effects := effects w |}).

Definition perform (e : effect) : State Session unit :=
  modify (λ w,
    {| tableData := tableData w; form := form w; clock := clock w;
       reads := reads w; effects := (effects w ++ [e])%list |}).

(** [Date.now()], and the time value of [new Date()]. *)
Definition Date_now : State Session Z := λ w,
  (clock w (reads w),
   {| tableData := tableData w; form := form w; clock := clock w;
      reads := S (reads w); effects := effects w |}).

(** Step 4 and 5: the component's initial state. *)
Definition init (clock : nat → Z) : Session :=
  {| tableData := []; form := useForm defaultValues; clock := clock;
     reads := 0; effects := [] |}.

(** Step 6: [onSubmit]. *)
Definition onSubmit (values : FormData) : State Session unit :=
  perform (console_log "Form submitted with values:" (values_logged values));;
  now ← Date_now;
  today ← Date_now;
  let newEntry :=
    {| formData := values;
       id := toString now;
       createdAt := toISOString today |} in
  setTableData (λ prev, (prev ++ [newEntry])%list);;
  modify (λ w, set_form (reset defaultValues (form w)) w);;
  perform (alert "User added successfully!").

(** Step 7: [onError]. *)
Definition onError (errors : gmap string FieldError) : State Session unit :=
  perform (console_log "Form validation errors:" (errors_logged errors)).

(** [form.handleSubmit(onSubmit, onError)] *)
Definition submit : State Session unit :=
  handleSubmit resolver form set_form onSubmit onError.

(** *** The controls *)

Definition onChange (name : string) (value : jsval) : State Session unit :=
  modify (λ w, set_form (field_onChange resolver name value (form w)) w).

(** Steps 10 and 11: the text inputs hand over their text. *)
Definition Input_onChange (name : string) (text : string)
    : State Session unit :=
  onChange name (VString text).

(** Step 12: the calendar.  [disabled] is the matcher given to it. *)
Definition disabled (today date : Z) : bool :=
  (today <? date) || (date <? date_1900_01_01).

(** A click on a day: a disabled day cannot be clicked; in single
    mode a click on the selected day clears the selection. *)
Definition Calendar_onDayClick (date : Z) : State Session unit :=
  today ← Date_now;
  if disabled today date then mret tt
  else
    selected ← gets (λ w, get (_formValues (form w)) "birthDate");
    onChange "birthDate"
      (if bool_decide (selected = VDate (Some date)) then VUndefined
       else VDate (Some date)).

(** Step 13: the select and its items. *)
Inductive SelectItem := engineering | marketing | sales | hr | finance.

Definition item_value (i : SelectItem) : string :=
  match i with
  | engineering => "engineering"
  | marketing => "marketing"
  | sales => "sales"
  | hr => "hr"
  | finance => "finance"
  end.

Definition SelectContent : list SelectItem :=
  [engineering; marketing; sales; hr; finance].

Definition Select_onValueChange (i : SelectItem) : State Session unit :=
  onChange "department" (VString (item_value i)).

(** Step 14: the checkbox.  [CheckedState] is
    [boolean | "indeterminate"]; [onCheckedChange] is [field.onChange]
    itself. *)
Inductive CheckedState := checked (b : bool) | indeterminate.

Definition checked_value (c : CheckedState) : jsval :=
  match c with
  | checked b => VBool b
  | indeterminate => VString "indeterminate"
  end.

Definition Checkbox_onCheckedChange (c : CheckedState)
    : State Session unit :=
  onChange "isActive" (checked_value c).

(** The handler of the guide's section "Checkbox Boolean Handling
    Complexities", which the checkbox of the component does not
    use. *)
Definition Checkbox_onCheckedChange_guide (c : CheckedState)
    : State Session unit :=
  match c with
  | indeterminate => onChange "isActive" (VBool false)
  | checked b => onChange "isActive" (VBool (bool_decide (b = true)))
  end.

(** What the user does, one event at a time. *)
Inductive event :=
| type_name (text : string)
| type_email (text : string)
| click_day (date : Z)
| choose_department (i : SelectItem)
| checkbox_emits (c : CheckedState)
| press_add_user.

Definition handle (e : event) : State Session unit :=
  match e with
  | type_name text => Input_onChange "name" text
  | type_email text => Input_onChange "email" text
  | click_day date => Calendar_onDayClick date
  | choose_department i => Select_onValueChange i
  | checkbox_emits c => Checkbox_onCheckedChange c
  | press_add_user => submit
  end.

Fixpoint run (es : list event) (w : Session) : Session :=
  match es with
  | [] => w
  | e :: es' => run es' (exec (handle e) w)
  end.

(** *** Step 16: the table body *)

Inductive date_source := time_value (t : Z) | date_string (s : string).

(** A cell shows a text, or a date through [format] of date-fns. *)
Inductive cell :=
| text (s : string)
| format (d : date_source) (pattern : string).

Inductive row :=
| placeholder (colSpan : Z) (content : string)
| user_row (key : string) (cells : list cell).

Definition TableRow (user : TableData) : row :=
  user_row (id user)
    [ text (name (formData user));
      text (email (formData user));
      format (time_value (birthDate (formData user))) "PP";
      text (department (formData user));
      text (if isActive (formData user) then "Active" else "Inactive");
      format (date_string (createdAt user)) "pp" ].

Definition TableBody (tableData : list TableData) : list row :=
  if (length tableData =? 0)%nat then
    [ placeholder 6
        "No users registered yet. Fill out the form above to add users." ]
  else TableRow <$> tableData.

(** Rendering reads the session. *)
Definition render : State Session (list row) :=
  gets (λ w, TableBody (tableData w)).

End App.

(** ** The contract of the pipeline

    The rules the schema checks, stated on the raw value of a field
    and without reference to the schema's parser; the rule of the
    specification for the department, which asks for more than the
    schema does; and the inputs of the specification's scenarios. *)

Module Contract.
Import App.

Definition violates_name (x : jsval) : bool :=
  match x with
  | VString s => Z.of_nat (String.length s) <? 2
  | _ => true
  end.

Definition violates_email (x : jsval) : bool :=
  match x with
  | VString s => negb (Regex.test Zod.email_regex s)
  | _ => true
  end.

Definition violates_birthDate (x : jsval) : bool :=
  match x with
  | VDate (Some _) => false
  | _ => true
  end.

(** The department as the schema checks it: any string passes. *)
Definition violates_department (x : jsval) : bool :=
  match x with
  | VString _ => false
  | _ => true
  end.

Definition violates_isActive (x : jsval) : bool :=
  match x with
  | VUndefined | VBool _ => false
  | _ => true
  end.

Definition mark (key : string) (b : bool) : gset string :=
  if b then {[key]} else ∅.

(** The names of the fields of [values] that break their rule. *)
Definition offending (values : gmap string jsval) : gset string :=
  mark "name" (violates_name (get values "name"))
  ∪ mark "email" (violates_email (get values "email"))
  ∪ mark "birthDate" (violates_birthDate (get values "birthDate"))
  ∪ mark "department" (violates_department (get values "department"))
  ∪ mark "isActive" (violates_isActive (get values "isActive")).

(** The option set of the department select. *)
Definition department_options : list string := item_value <$> SelectContent.

(** The department as the specification words it: "value must be one
    of the declared option set". *)
Definition violates_department_option_set (x : jsval) : bool :=
  match x with
  | VString s => negb (bool_decide (s ∈ department_options))
  | _ => true
  end.

(** The offending fields as the specification words them: the rules
    above, with the option set for the department; "boolean fields
    never fail validation". *)
Definition offending_in_the_specification (values : gmap string jsval)
    : gset string :=
  mark "name" (violates_name (get values "name"))
  ∪ mark "email" (violates_email (get values "email"))
  ∪ mark "birthDate" (violates_birthDate (get values "birthDate"))
  ∪ mark "department"
      (violates_department_option_set (get values "department")).

(** The two scenarios of the specification. *)
Definition scenario_valid : gmap string jsval :=
  <["name" := VString "Al"]> (<["email" := VString "al@example.com"]>
    (<["birthDate" := VDate (Some 946684800000)]>
      (<["department" := VString "engineering"]>
        (<["isActive" := VBool true]> ∅)))).

Definition scenario_invalid : gmap string jsval :=
  <["name" := VString "A"]> (<["email" := VString "bad"]> ∅).

(** The valid scenario with a department that is not among the items
    of the select, and with a birth date of 1800-01-01. *)
Definition unlisted_department : gmap string jsval :=
  <["department" := VString "astrology"]> scenario_valid.

Definition date_1800_01_01 : Z := -5364662400000.

Definition born_in_1800 : gmap string jsval :=
  <["birthDate" := VDate (Some date_1800_01_01)]> scenario_valid.

(** A clock that gives the same reading every time, and a session in
    which two users are added. *)
Definition frozen_clock : nat → Z := λ _, 1700000000000.

Definition two_submissions : list event :=
  [ type_name "Al"; type_email "al@example.com"; click_day 946684800000;
    choose_department engineering; checkbox_emits (checked true);
    press_add_user;
    type_name "Bo"; type_email "bo@example.com"; click_day 631152000000;
    choose_department sales; press_add_user ].

(** A session whose form holds [values]. *)
Definition holding (values : gmap string jsval) (w : Session) : Session :=
  set_form {| RHF._formValues := values;
              RHF._formState := RHF._formState (form w) |} w.

End Contract.

(** ** The calendar component

    [Calendar]: how the class names handed to react-day-picker are put
    together. *)

Module CalendarUI.

(** [Boolean(c)] for a class that is a string or [undefined]: the empty
    string is falsy too. *)
Definition Boolean (c : option string) : bool :=
  match c with
  | Some s => negb (String.eqb s "")
  | None => false
  end.

(** [(...classes) => classes.filter(Boolean).join(' ')] *)
Definition combineClasses (classes : list (option string)) : string :=
  RHF.join " " (omap (λ c, c) (List.filter Boolean classes)).

Section Calendar.
(** [buttonVariants] of the button component, by variant, and the
    object [getDefaultClassNames()] returns. *)
Variable buttonVariants : string → string.
Variable defaultClassNames : gmap string string.

(** The [className] given to [DayPicker]. *)
Definition Calendar_className (className : option string) : string :=
  combineClasses
    [ Some "bg-background group/calendar p-3 [--cell-size:--spacing(8)] [[data-slot=card-content]_&]:bg-transparent [[data-slot=popover-content]_&]:bg-transparent";
      Some "rtl:**:[.rdp-button\_next>svg]:rotate-180";
      Some "rtl:**:[.rdp-button\_previous>svg]:rotate-180";
      className ].

(** The object literal of the [classNames] prop, before the caller's
    [classNames] are spread over it. *)
Definition own_classNames (captionLayout buttonVariant : string)
    : list (string * string) :=
  [
    ("root", combineClasses [Some "w-fit"; defaultClassNames !! "root"]);
    ("months", combineClasses [Some "flex gap-4 flex-col md:flex-row relative"; defaultClassNames !! "months"]);
    ("month", combineClasses [Some "flex flex-col w-full gap-4"; defaultClassNames !! "month"]);
    ("nav", combineClasses [Some "flex items-center gap-1 w-full absolute top-0 inset-x-0 justify-between"; defaultClassNames !! "nav"]);
    ("button_previous", combineClasses [Some (buttonVariants buttonVariant); Some "size-(--cell-size) aria-disabled:opacity-50 p-0 select-none"; defaultClassNames !! "button_previous"]);
    ("button_next", combineClasses [Some (buttonVariants buttonVariant); Some "size-(--cell-size) aria-disabled:opacity-50 p-0 select-none"; defaultClassNames !! "button_next"]);
    ("month_caption", combineClasses [Some "flex items-center justify-center h-(--cell-size) w-full px-(--cell-size)"; defaultClassNames !! "month_caption"]);
    ("dropdowns", combineClasses [Some "w-full flex items-center text-sm font-medium justify-center h-(--cell-size) gap-1.5"; defaultClassNames !! "dropdowns"]);
    ("dropdown_root", combineClasses [Some "relative has-focus:border-ring border border-input shadow-xs has-focus:ring-ring/50 has-focus:ring-[3px] rounded-md"; defaultClassNames !! "dropdown_root"]);
    ("dropdown", combineClasses [Some "absolute bg-popover inset-0 opacity-0"; defaultClassNames !! "dropdown"]);
    ("caption_label", combineClasses [Some "select-none font-medium"; Some (if String.eqb captionLayout "label" then "text-sm" else "rounded-md pl-2 pr-1 flex items-center gap-1 text-sm h-8 [&>svg]:text-muted-foreground [&>svg]:size-3.5"); defaultClassNames !! "caption_label"]);
    ("table", "w-full border-collapse");
    ("weekdays", combineClasses [Some "flex"; defaultClassNames !! "weekdays"]);
    ("weekday", combineClasses [Some "text-muted-foreground rounded-md flex-1 font-normal text-[0.8rem] select-none"; defaultClassNames !! "weekday"]);
    ("week", combineClasses [Some "flex w-full mt-2"; defaultClassNames !! "week"]);
    ("week_number_header", combineClasses [Some "select-none w-(--cell-size)"; defaultClassNames !! "week_number_header"]);
    ("week_number", combineClasses [Some "text-[0.8rem] select-none text-muted-foreground"; defaultClassNames !! "week_number"]);
    ("day", combineClasses [Some "relative w-full h-full p-0 text-center [&:first-child[data-selected=true]_button]:rounded-l-md [&:last-child[data-selected=true]_button]:rounded-r-md group/day aspect-square select-none"; defaultClassNames !! "day"]);
    ("range_start", combineClasses [Some "rounded-l-md bg-accent"; defaultClassNames !! "range_start"]);
    ("range_middle", combineClasses [Some "rounded-none"; defaultClassNames !! "range_middle"]);
    ("range_end", combineClasses [Some "rounded-r-md bg-accent"; defaultClassNames !! "range_end"]);
    ("today", combineClasses [Some "bg-accent text-accent-foreground rounded-md data-[selected=true]:rounded-none"; defaultClassNames !! "today"]);
    ("outside", combineClasses [Some "text-muted-foreground aria-selected:text-muted-foreground"; defaultClassNames !! "outside"]);
    ("disabled", combineClasses [Some "text-muted-foreground opacity-50"; defaultClassNames !! "disabled"]);
    ("hidden", combineClasses [Some "invisible"; defaultClassNames !! "hidden"])
  ].

(** The [classNames] given to [DayPicker]: the literal, then
    [...classNames]. *)
Definition Calendar_classNames (captionLayout buttonVariant : string)
    (classNames : gmap string string) : gmap string string :=
  classNames ∪ list_to_map (own_classNames captionLayout buttonVariant).

End Calendar.

End CalendarUI.

(** ** Notions used to state what the components guarantee *)

Module Facts.
Import App.

(** Two class strings put side by side: a space between them when
    both are there. *)
Definition glue (a b : string) : string :=
  if String.eqb a "" then b
  else if String.eqb b "" then a
  else a +:+ " " +:+ b.

Definition is_press (e : event) : bool :=
  match e with
  | press_add_user => true
  | _ => false
  end.

Definition is_alert (e : effect) : bool :=
  match e with
  | alert _ => true
  | console_log _ _ => false
  end.

(** The readings of the clock that became ids: for each press of Add
    User on a valid form, the number of the reading [Date.now()]
    takes. *)
Fixpoint id_readings (es : list event) (w : Session) : list nat :=
  match es with
  | [] => []
  | e :: es' =>
      (match e, resolver (RHF._formValues (form w)) with
       | press_add_user, RHF.Valid _ => [reads w]
       | _, _ => []
       end ++ id_readings es' (exec (handle e) w))%list
  end.

(** A clock that advances by a millisecond at every reading. *)
Definition ticking_clock : nat → Z := λ i, 1700000000000 + Z.of_nat i.

(** The texts a pattern stands for, to state what [Regex.test]
    decides. *)
Inductive star (L : string → Prop) : string → Prop :=
| star_nil : star L ""
| star_app s1 s2 : L s1 → star L s2 → star L (s1 +:+ s2).

Fixpoint lang (r : Regex.regex) : string → Prop :=
  match r with
  | Regex.Never => λ _, False
  | Regex.Eps => λ s, s = ""
  | Regex.Chr cls => λ s, ∃ c, s = String c "" ∧ cls c = true
  | Regex.Cat r1 r2 => λ s, ∃ s1 s2, s = s1 +:+ s2 ∧ lang r1 s1 ∧ lang r2 s2
  | Regex.Alt r1 r2 => λ s, lang r1 s ∨ lang r2 s
  | Regex.Star r1 => star (lang r1)
  | Regex.And r1 r2 => λ s, lang r1 s ∧ lang r2 s
  | Regex.Not r1 => λ s, ¬ lang r1 s
  end.

Fixpoint all_chars (P : ascii → bool) (s : string) : bool :=
  match s with
  | EmptyString => true
  | String c s' => P c && all_chars P s'
  end.

Fixpoint has_char (x : ascii) (s : string) : bool :=
  match s with
  | EmptyString => false
  | String c s' => Regex.char x c || has_char x s'
  end.

(** A pattern without lookahead whose character classes all lie
    within [P]. *)
Fixpoint classes_within (P : ascii → bool) (r : Regex.regex) : Prop :=
  match r with
  | Regex.Never | Regex.Eps => True
  | Regex.Chr cls => ∀ c, cls c = true → P c = true
  | Regex.Cat r1 r2 | Regex.Alt r1 r2 =>
      classes_within P r1 ∧ classes_within P r2
  | Regex.Star r1 => classes_within P r1
  | Regex.And _ _ | Regex.Not _ => False
  end.

(** The field an event writes to. *)
Definition field_of (e : event) : option string :=
  match e with
  | type_name _ => Some "name"
  | type_email _ => Some "email"
  | click_day _ => Some "birthDate"
  | choose_department _ => Some "department"
  | checkbox_emits _ => Some "isActive"
  | press_add_user => None
  end.

(** The error a field gets from what its schema made of its value:
    the first issue, if any. *)
Definition field_error {A} (r : Zod.payload A) : option RHF.FieldError :=
  match Zod.issues r with
  | [] => None
  | i :: _ =>
      Some {| RHF.type := Zod.code i; RHF.message := Zod.message i |}
  end.

(** A date the calendar lets the user pick at some moment of the
    session: not before 1900-01-01 and not after a reading of the
    clock taken so far. *)
Definition pickable (w : Session) (t : Z) : Prop :=
  date_1900_01_01 ≤ t ∧ ∃ i, (i < reads w)%nat ∧ t ≤ clock w i.

(** A record that keeps the rules of the name and e-mail fields. *)
Definition well_formed (d : FormData) : Prop :=
  2 ≤ Z.of_nat (String.length (name d))
  ∧ Regex.test Zod.email_regex (email d) = true.

(** What holds of a session that is driven through the controls:
    the texts are texts, the department is unset or an item of the
    select, the birth date is unset or a pickable day, every record
    of the table has such a department and date, and there are as
    many success alerts as records. *)
Definition through_controls (w : Session) : Prop :=
  let v := RHF._formValues (form w) in
  (∃ s, get v "name" = VString s)
  ∧ (∃ s, get v "email" = VString s)
  ∧ (get v "department" = VUndefined
     ∨ ∃ i, get v "department" = VString (item_value i))
  ∧ (get v "birthDate" = VUndefined
     ∨ ∃ t, get v "birthDate" = VDate (Some t) ∧ pickable w t)
  ∧ Forall (λ r, department (formData r) ∈ Contract.department_options
                 ∧ pickable w (birthDate (formData r)))
      (tableData w)
  ∧ length (List.filter is_alert (effects w)) = length (tableData w).

End Facts.

(** ** Proofs *)

Import Zod RHF App Contract.

(** *** The built-ins *)

Lemma toString_nonempty n : toString n ≠ "".
Proof.
  unfold toString. destruct (Z.to_int n) as [d|d]; [destruct d|]; discriminate.
Qed.

Lemma toString_inj a b : toString a = toString b → a = b.
Proof.
  unfold toString. intros H. apply to_int_inj.
  assert (Hnn : ∀ z, Z.to_int z ≠ Decimal.Pos Decimal.Nil
                    ∧ Z.to_int z ≠ Decimal.Neg Decimal.Nil).
  { intros [|p|p]; split; try discriminate;
      intros [=E]; by apply DecimalPos.Unsigned.to_uint_nonnil in E. }
  destruct (Hnn a) as [Ha1 Ha2], (Hnn b) as [Hb1 Hb2].
  pose proof (NilZero.isi _ Ha1 Ha2) as Ea.
  pose proof (NilZero.isi _ Hb1 Hb2) as Eb.
  rewrite H in Ea. congruence.
Qed.

Lemma append_nonempty_r a c b : a +:+ String c b ≠ "".
Proof. destruct a; discriminate. Qed.

Lemma toISOString_nonempty t : toISOString t ≠ "".
Proof.
  unfold toISOString. destruct (civil_from_days _) as [[y m] d].
  apply append_nonempty_r.
Qed.

(** *** Validation, field by field

    Each field schema either accepts its input, with no issue, or
    raises exactly one issue; it accepts exactly when the input keeps
    the field's rule. *)

Lemma name_schema_cases x :
  (∃ s, x = VString s ∧ violates_name x = false
        ∧ name_schema x = Payload (Some s) [])
  ∨ (∃ o c m, violates_name x = true
        ∧ name_schema x = Payload o [Issue c [] m]).
Proof.
  destruct x as [| |b|s|t]; try (right; do 3 eexists; split; reflexivity).
  unfold name_schema, min, check, violates_name; cbn.
  destruct (Z.of_nat (String.length s) <? 2).
  - right. do 3 eexists. split; reflexivity.
  - left. eexists; repeat split.
Qed.

Lemma email_schema_cases x :
  (∃ s, x = VString s ∧ violates_email x = false
        ∧ email_schema x = Payload (Some s) [])
  ∨ (∃ o c m, violates_email x = true
        ∧ email_schema x = Payload o [Issue c [] m]).
Proof.
  destruct x as [| |b|s|t]; try (right; do 3 eexists; split; reflexivity).
  unfold email_schema, Zod.email, check, violates_email; cbn.
  destruct (Regex.test email_regex s).
  - left. eexists; repeat split.
  - right. do 3 eexists. split; reflexivity.
Qed.

Lemma birthDate_schema_cases x :
  (∃ t, x = VDate (Some t) ∧ violates_birthDate x = false
        ∧ birthDate_schema x = Payload (Some t) [])
  ∨ (∃ o c m, violates_birthDate x = true
        ∧ birthDate_schema x = Payload o [Issue c [] m]).
Proof.
  destruct x as [| |b|s|[t|]]; try (right; do 3 eexists; split; reflexivity).
  left. eexists; repeat split.
Qed.

Lemma department_schema_cases x :
  (∃ s, x = VString s ∧ violates_department x = false
        ∧ department_schema x = Payload (Some s) [])
  ∨ (∃ o c m, violates_department x = true
        ∧ department_schema x = Payload o [Issue c [] m]).
Proof.
  destruct x as [| |b|s|t]; try (right; do 3 eexists; split; reflexivity).
  left. eexists; repeat split.
Qed.

Lemma isActive_schema_cases x :
  (∃ b, (x = VBool b ∨ x = VUndefined ∧ b = false)
        ∧ violates_isActive x = false
        ∧ isActive_schema x = Payload (Some b) [])
  ∨ (∃ o c m, violates_isActive x = true
        ∧ isActive_schema x = Payload o [Issue c [] m]).
Proof.
  destruct x as [| |b|s|t]; try (right; do 3 eexists; split; reflexivity).
  - left. exists false. repeat split. by right.
  - left. exists b. repeat split. by left.
Qed.

Lemma resolver_cases v :
  match resolver v with
  | Valid d =>
      offending v = ∅
      ∧ get v "name" = VString (name d)
      ∧ get v "email" = VString (email d)
      ∧ get v "birthDate" = VDate (Some (birthDate d))
      ∧ get v "department" = VString (department d)
      ∧ (get v "isActive" = VBool (isActive d)
         ∨ get v "isActive" = VUndefined ∧ isActive d = false)
  | Invalid e => dom e = offending v ∧ e ≠ ∅
  end.
Proof.
  unfold offending.
  cbv [resolver zodResolver safeParse formSchema property fields value issues].
  destruct (name_schema_cases (get v "name"))
    as [(n & Hn & -> & ->)|(on & cn & mn & -> & ->)];
  destruct (email_schema_cases (get v "email"))
    as [(e & He & -> & ->)|(oe & ce & me & -> & ->)];
  destruct (birthDate_schema_cases (get v "birthDate"))
    as [(t & Ht & -> & ->)|(ot & ct & mt & -> & ->)];
  destruct (department_schema_cases (get v "department"))
    as [(d & Hd & -> & ->)|(od & cd & md & -> & ->)];
  destruct (isActive_schema_cases (get v "isActive"))
    as [(a & Ha & -> & ->)|(oa & ca & ma & -> & ->)];
  cbn.
  all: try (split; [vm_compute; reflexivity | vm_compute; discriminate]).
  repeat split; try done.
Qed.

(** *** The resolver's errors against the contract *)

Lemma errors_of_dom v : dom (errors_of (resolver v)) = offending v.
Proof.
  pose proof (resolver_cases v) as H. destruct (resolver v); cbn.
  - destruct H as [-> _]. apply dom_empty_L.
  - apply H.
Qed.

Lemma resolver_valid_iff v : (∃ d, resolver v = Valid d) ↔ offending v = ∅.
Proof.
  pose proof (resolver_cases v) as H. split.
  - intros [d Hd]. rewrite Hd in H. apply H.
  - intros Ho. destruct (resolver v) as [d|e]; [by exists d|].
    destruct H as [Hdom Hne]. rewrite Ho in Hdom.
    by apply dom_empty_inv_L in Hdom.
Qed.

Lemma elem_of_offending k v :
  k ∈ offending v ↔
    k = "name" ∧ violates_name (get v "name") = true
    ∨ k = "email" ∧ violates_email (get v "email") = true
    ∨ k = "birthDate" ∧ violates_birthDate (get v "birthDate") = true
    ∨ k = "department" ∧ violates_department (get v "department") = true
    ∨ k = "isActive" ∧ violates_isActive (get v "isActive") = true.
Proof.
  unfold offending, mark. rewrite !elem_of_union.
  destruct (violates_name _), (violates_email _), (violates_birthDate _),
    (violates_department _), (violates_isActive _);
    rewrite ?elem_of_singleton, ?elem_of_empty; intuition congruence.
Qed.

Lemma field_error_none k v :
  errors_of (resolver v) !! k = None ↔ k ∉ offending v.
Proof. rewrite <- errors_of_dom. symmetry. apply not_elem_of_dom. Qed.

(** *** What a submission does to the session *)

(** Unfolds the handlers and the monad down to the session they
    produce. *)
Ltac step_through :=
  cbv [exec eval onSubmit onError perform Date_now setTableData modify gets
       submitted set_errors set_form reset mbind mret state_bind state_ret
       form tableData clock reads effects _formValues _formState errors
       isSubmitted isSubmitSuccessful submitCount fst snd];
  cbn -[toISOString toString].

Lemma submit_valid w d :
  resolver (_formValues (form w)) = Valid d →
  exec submit w =
    {| tableData :=
         (tableData w ++
           [{| formData := d;
               id := toString (clock w (reads w));
               createdAt := toISOString (clock w (S (reads w))) |}])%list;
       form :=
         {| _formValues := defaultValues;
            _formState :=
              {| errors := ∅; isSubmitted := true;
                 isSubmitSuccessful := true; submitCount := 1 |} |};
       clock := clock w;
       reads := S (S (reads w));
       effects :=
         (effects w ++
           [console_log "Form submitted with values:" (values_logged d);
            alert "User added successfully!"])%list |}.
Proof.
  intros H. unfold exec, submit, handleSubmit, _runSchema, gets, mbind, state_bind.
  rewrite H. step_through. by rewrite <- app_assoc.
Qed.

Lemma submit_invalid w e :
  resolver (_formValues (form w)) = Invalid e →
  exec submit w =
    {| tableData := tableData w;
       form :=
         {| _formValues := _formValues (form w);
            _formState :=
              {| errors := e; isSubmitted := true;
                 isSubmitSuccessful := bool_decide (e = ∅);
                 submitCount := S (submitCount (_formState (form w))) |} |};
       clock := clock w;
       reads := reads w;
       effects :=
         (effects w ++
           [console_log "Form validation errors:" (errors_logged e)])%list |}.
Proof.
  intros H. unfold exec, submit, handleSubmit, _runSchema, gets, mbind, state_bind.
  rewrite H. by step_through.
Qed.

(** [handleSubmit] tells success from failure by whether the errors
    are empty; a failed parse of [formSchema] always has some. *)
Lemma resolver_invalid_nonempty v e : resolver v = Invalid e → e ≠ ∅.
Proof.
  intros H. pose proof (resolver_cases v) as Hc. rewrite H in Hc. apply Hc.
Qed.

Lemma committed_id w d :
  resolver (_formValues (form w)) = Valid d →
  id <$> tableData (exec submit w)
    = ((id <$> tableData w) ++ [toString (clock w (reads w))])%list.
Proof.
  intros H. rewrite (submit_valid w d H). cbn -[toString toISOString].
  by rewrite fmap_app.
Qed.

(** *** Sessions

    Every event leaves the clock alone; it either keeps the table, or
    appends one record whose [id] is the next clock reading. *)
Lemma handle_cases e w :
  clock (exec (handle e) w) = clock w
  ∧ (tableData (exec (handle e) w) = tableData w
       ∧ (reads w ≤ reads (exec (handle e) w))%nat
     ∨ ∃ r, tableData (exec (handle e) w) = (tableData w ++ [r])%list
            ∧ id r = toString (clock w (reads w))
            ∧ reads (exec (handle e) w) = S (S (reads w))).
Proof.
  destruct e as [s|s|t|i|c|]; cbn [handle];
    try (split; [reflexivity | left; split; [reflexivity | cbn; lia]]).
  - unfold Calendar_onDayClick, exec, mbind, state_bind, Date_now.
    cbn [clock reads tableData form effects].
    destruct (disabled _ _);
      (split; [reflexivity | left; split; [reflexivity | cbn; lia]]).
  - destruct (resolver (_formValues (form w))) as [d|errs] eqn:E.
    + rewrite (submit_valid w d E). cbn -[toString toISOString].
      split; [reflexivity|]. right. eexists. repeat split.
    + rewrite (submit_invalid w errs E). cbn.
      split; [reflexivity | left; split; [reflexivity | lia]].
Qed.

(** The ids of the table are clock readings taken at distinct moments
    of the session. *)
Lemma ids_are_clock_readings es w (taken : list nat) :
  id <$> tableData w = (λ i, toString (clock w i)) <$> taken →
  NoDup taken →
  Forall (λ i, (i < reads w)%nat) taken →
  ∃ taken',
    id <$> tableData (run es w)
      = (λ i, toString (clock w i)) <$> taken'
    ∧ NoDup taken'.
Proof.
  revert w taken. induction es as [|e es IH]; intros w taken Hid Hnd Hlt.
  - exists taken. by split.
  - cbn [run]. destruct (handle_cases e w) as [Hc [[Ht Hr]|(r & Ht & Hr & Hn)]].
    + destruct (IH (exec (handle e) w) taken) as (taken' & H1 & H2).
      * by rewrite Ht, Hc.
      * done.
      * eapply Forall_impl; [exact Hlt|]. cbn. intros i Hi. lia.
      * exists taken'. split; [|done]. by rewrite H1, Hc.
    + destruct (IH (exec (handle e) w) (taken ++ [reads w])%list)
        as (taken' & H1 & H2).
      * rewrite Ht, Hc, !fmap_app, Hid. cbn. by rewrite Hr.
      * apply NoDup_app. split; [done|]. split; [|apply NoDup_singleton].
        intros i Hi Hin. apply list_elem_of_singleton in Hin as ->.
        rewrite Forall_forall in Hlt. specialize (Hlt _ Hi). lia.
      * rewrite Hn. apply Forall_app. split.
        -- eapply Forall_impl; [exact Hlt|]. cbn. intros i Hi. lia.
        -- apply Forall_singleton. lia.
      * exists taken'. split; [|done]. by rewrite H1, Hc.
Qed.

(** With a clock that never gives the same reading twice, no two
    records of a session share their [id]. *)
Lemma ids_distinct_when_readings_distinct (c : nat → Z) (es : list event) :
  (∀ i j, c i = c j → i = j) →
  NoDup (id <$> tableData (run es (init c))).
Proof.
  intros Hinj.
  destruct (ids_are_clock_readings es (init c) []) as (taken & H1 & H2).
  - reflexivity.
  - apply NoDup_nil_2.
  - apply Forall_nil_2.
  - rewrite H1. apply NoDup_fmap_2; [|done].
    intros i j Hij. apply toString_inj in Hij. by apply Hinj.
Qed.

(** The handler of the guide stores [false] for [indeterminate]. *)
Lemma guide_handler_stores_false w :
  get (_formValues (form (exec (Checkbox_onCheckedChange_guide indeterminate) w)))
      "isActive" = VBool false.
Proof.
  unfold Checkbox_onCheckedChange_guide, onChange, field_onChange.
  step_through. unfold get. by rewrite lookup_insert_eq.
Qed.

(** The messages of the two required fields when they are unset: the
    schema's [required_error] texts are not among them. *)
Example unset_required_messages :
  message <$> errors_of (resolver scenario_invalid) !! "department"
    = Some "Invalid input: expected string, received undefined"
  ∧ message <$> errors_of (resolver scenario_invalid) !! "birthDate"
    = Some "Invalid input: expected date, received undefined"
  ∧ message <$> errors_of (resolver scenario_invalid) !! "name"
    = Some "Name must be at least 2 characters."
  ∧ message <$> errors_of (resolver scenario_invalid) !! "email"
    = Some "Please enter a valid email address.".
Proof. repeat split; vm_compute; reflexivity. Qed.

(** ** The claims *)

(** Claim C1, as amended.  Validation reports no department error
    exactly when the department field holds a string, whatever the
    string: each of the five items of the select passes, and so does
    any other text, since the option set is enforced by the select
    control only.  When the field is unset, validation reports a
    department error. *)
Theorem department_accepts_any_string (v : gmap string jsval) :
  (errors_of (resolver v) !! "department" = None
     ↔ ∃ s, get v "department" = VString s)
  ∧ (∀ i, errors_of (resolver (<["department" := VString (item_value i)]> v))
            !! "department" = None)
  ∧ (get v "department" = VUndefined →
       is_Some (errors_of (resolver v) !! "department")).
Proof.
  assert (Hiff : ∀ u : gmap string jsval,
    errors_of (resolver u) !! "department" = None
      ↔ ∃ s, get u "department" = VString s).
  { intros u. rewrite field_error_none, elem_of_offending. split.
    - intros Hn. destruct (get u "department") as [| |b|s|t] eqn:E;
        try (exfalso; apply Hn; do 3 right; left; by split).
      by exists s.
    - intros [s Hs] H. rewrite Hs in H. cbn in H.
      intuition discriminate. }
  split; [apply Hiff|]. split.
  - intros i. apply Hiff. exists (item_value i).
    unfold get. by rewrite lookup_insert_eq.
  - intros Hu. destruct (errors_of (resolver v) !! "department") eqn:E; [done|].
    apply Hiff in E as [s Hs]. congruence.
Qed.

Lemma department_accepts_any_string_witness :
  get scenario_invalid "department" = VUndefined
  ∧ is_Some (errors_of (resolver scenario_invalid) !! "department").
Proof.
  split; [reflexivity|].
  apply (department_accepts_any_string scenario_invalid). reflexivity.
Defined.

(** Claim C1 as stated fails: the department "astrology" is set, is
    not one of the five options, and raises no department error. *)
Lemma department_option_set_not_enforced :
  get unlisted_department "department" = VString "astrology"
  ∧ ¬ (errors_of (resolver unlisted_department) !! "department" = None
        ↔ "astrology" ∈ department_options).
Proof.
  split; [reflexivity|]. intros [H _].
  assert (Hin : "astrology" ∈ department_options) by (apply H; reflexivity).
  unfold department_options in Hin. cbn in Hin.
  repeat (apply elem_of_cons in Hin as [Hin|Hin]; [discriminate|]).
  by apply elem_of_nil in Hin.
Qed.

(** Claim C2, at its failing input.  In a session whose clock gives the
    same reading at both submissions, two different users are added
    and their records carry the same [id]. *)
Theorem same_clock_reading_same_id :
  ∃ r1 r2,
    tableData (run two_submissions (init frozen_clock)) = [r1; r2]
    ∧ formData r1 ≠ formData r2
    ∧ id r1 = id r2.
Proof.
  do 2 eexists. split; [vm_compute; reflexivity|].
  split; [discriminate | reflexivity].
Qed.



(** Claim C4.  When no field of the form breaks its rule, the
    submission is valid and appends exactly one record to the table:
    its form fields are those of the input ([isActive] being [false]
    when unset), its [id] is the decimal text of the clock reading and
    its [createdAt] the ISO text of the next one, neither of them
    empty. *)
Theorem valid_submission_appends_one_record (w : Session) :
  offending (_formValues (form w)) = ∅ →
  ∃ d,
    resolver (_formValues (form w)) = Valid d
    ∧ get (_formValues (form w)) "name" = VString (name d)
    ∧ get (_formValues (form w)) "email" = VString (email d)
    ∧ get (_formValues (form w)) "birthDate" = VDate (Some (birthDate d))
    ∧ get (_formValues (form w)) "department" = VString (department d)
    ∧ (get (_formValues (form w)) "isActive" = VBool (isActive d)
       ∨ get (_formValues (form w)) "isActive" = VUndefined
         ∧ isActive d = false)
    ∧ tableData (exec submit w)
        = (tableData w ++
            [{| formData := d;
                id := toString (clock w (reads w));
                createdAt := toISOString (clock w (S (reads w))) |}])%list
    ∧ toString (clock w (reads w)) ≠ ""
    ∧ toISOString (clock w (S (reads w))) ≠ ""
    ∧ isSubmitSuccessful (_formState (form (exec submit w))) = true.
Proof.
  intros Ho. apply resolver_valid_iff in Ho as [d Hd]. exists d.
  pose proof (resolver_cases (_formValues (form w))) as H. rewrite Hd in H.
  destruct H as (_ & Hn & He & Ht & Hdep & Ha).
  rewrite (submit_valid w d Hd).
  repeat split; try assumption.
  - apply toString_nonempty.
  - apply toISOString_nonempty.
Qed.

Lemma valid_submission_appends_one_record_witness :
  offending scenario_valid = ∅
  ∧ tableData (exec submit (holding scenario_valid (init frozen_clock)))
      = [{| formData :=
              {| name := "Al"; email := "al@example.com";
                 birthDate := 946684800000; department := "engineering";
                 isActive := true |};
            id := "1700000000000";
            createdAt := "2023-11-14T22:13:20.000Z" |}].
Proof.
  split; [vm_compute; reflexivity|].
  destruct (valid_submission_appends_one_record
              (holding scenario_valid (init frozen_clock)))
    as (d & Hd & _ & _ & _ & _ & _ & Ht & _); [vm_compute; reflexivity|].
  rewrite Ht. vm_compute in Hd. injection Hd as <-. vm_compute. reflexivity.
Defined.

(** Claim C5.  When validation fails, the submission leaves the table
    as it was and the form keeps its current values; the errors are
    attached to the form. *)
Theorem invalid_submission_changes_nothing
    (w : Session) (e : gmap string FieldError) :
  resolver (_formValues (form w)) = Invalid e →
  tableData (exec submit w) = tableData w
  ∧ _formValues (form (exec submit w)) = _formValues (form w)
  ∧ errors (_formState (form (exec submit w))) = e.
Proof. intros H. by rewrite (submit_invalid w e H). Qed.

Lemma invalid_submission_changes_nothing_witness :
  resolver scenario_invalid
    = Invalid (errors_of (resolver scenario_invalid))
  ∧ tableData (exec submit (holding scenario_invalid (init frozen_clock))) = []
  ∧ _formValues (form (exec submit (holding scenario_invalid (init frozen_clock))))
      = scenario_invalid.
Proof.
  split; [vm_compute; reflexivity|].
  destruct (invalid_submission_changes_nothing
              (holding scenario_invalid (init frozen_clock))
              (errors_of (resolver scenario_invalid)))
    as (Ht & Hv & _); [vm_compute; reflexivity|].
  split; [exact Ht | exact Hv].
Defined.

(** Claim C6, as amended.  The errors of a validation are keyed by
    exactly the fields that break a rule the schema checks, all of
    them at once, and the result is valid exactly when there is none;
    for the department the rule is to be a string, not to be one of
    the option set.  The input with name "A", email "bad" and neither
    birth date nor department has errors for name, email, birthDate
    and department. *)
Theorem errors_keyed_by_offending_fields :
  (∀ v : gmap string jsval,
     dom (errors_of (resolver v)) = offending v
     ∧ ((∃ d, resolver v = Valid d) ↔ offending v = ∅))
  ∧ ∃ e, resolver scenario_invalid = Invalid e
         ∧ dom e = {[ "name"; "email"; "birthDate"; "department" ]}.
Proof.
  split.
  - intros v. split; [apply errors_of_dom | apply resolver_valid_iff].
  - eexists. split; [vm_compute; reflexivity|]. vm_compute. reflexivity.
Qed.

(** Claim C6 as stated fails: with the department "astrology", which
    is not one of the declared options, the department is an offending
    field in the words of the specification, and the errors have no
    key at all. *)
Lemma errors_miss_the_unlisted_department :
  "department" ∈ offending_in_the_specification unlisted_department
  ∧ dom (errors_of (resolver unlisted_department)) = ∅
  ∧ dom (errors_of (resolver unlisted_department))
      ≠ offending_in_the_specification unlisted_department.
Proof.
  assert (H1 : "department"
                 ∈ offending_in_the_specification unlisted_department).
  { vm_compute. reflexivity. }
  assert (H2 : dom (errors_of (resolver unlisted_department)) = ∅).
  { vm_compute. reflexivity. }
  split; [exact H1|]. split; [exact H2|].
  intros E. rewrite <- E, H2 in H1. by apply not_elem_of_empty in H1.
Qed.

(** Claim C7.  After a successful submission the values of the form
    are the declared defaults, with [birthDate] and [department] unset
    again, and the form has no errors. *)
Theorem successful_submit_resets_form (w : Session) (d : FormData) :
  resolver (_formValues (form w)) = Valid d →
  _formValues (form (exec submit w)) = defaultValues
  ∧ errors (_formState (form (exec submit w))) = ∅
  ∧ get (_formValues (form (exec submit w))) "name" = VString ""
  ∧ get (_formValues (form (exec submit w))) "email" = VString ""
  ∧ get (_formValues (form (exec submit w))) "birthDate" = VUndefined
  ∧ get (_formValues (form (exec submit w))) "department" = VUndefined
  ∧ get (_formValues (form (exec submit w))) "isActive" = VBool false.
Proof. intros H. rewrite (submit_valid w d H). cbn. repeat split. Qed.

Lemma successful_submit_resets_form_witness :
  resolver scenario_valid
    = Valid {| name := "Al"; email := "al@example.com";
               birthDate := 946684800000; department := "engineering";
               isActive := true |}
  ∧ _formValues (form (exec submit (holding scenario_valid (init frozen_clock))))
    = defaultValues
  ∧ errors (_formState (form (exec submit
              (holding scenario_valid (init frozen_clock))))) = ∅.
Proof.
  destruct (successful_submit_resets_form
              (holding scenario_valid (init frozen_clock))
              {| name := "Al"; email := "al@example.com";
                 birthDate := 946684800000; department := "engineering";
                 isActive := true |})
    as (Hv & He & _); [vm_compute; reflexivity|].
  split; [vm_compute; reflexivity|]. split; [exact Hv | exact He].
Defined.

(** Claim C8.  The body of the table is one placeholder row with its
    explanatory text when the table is empty, and one row per record
    otherwise; rendering leaves the session as it is. *)
Theorem table_body_rows :
  TableBody []
    = [placeholder 6
         "No users registered yet. Fill out the form above to add users."]
  ∧ (∀ (user : TableData) (rest : list TableData),
       TableBody (user :: rest) = TableRow <$> (user :: rest)
       ∧ length (TableBody (user :: rest)) = length (user :: rest))
  ∧ (∀ w : Session,
       eval render w = TableBody (tableData w) ∧ exec render w = w).
Proof.
  split; [reflexivity|]. split.
  - intros user rest. split; [reflexivity|]. cbn. by rewrite length_fmap.
  - intros w. split; reflexivity.
Qed.

(** Claim C9.  The result of validation is a function of the values
    of the form alone: it is the same in any two sessions that hold
    the same values, running it changes nothing, and running it twice
    gives the same result twice. *)
Theorem validation_depends_on_the_values_only
    (v : gmap string jsval) (w1 w2 : Session) :
  eval (_runSchema resolver form) (holding v w1) = resolver v
  ∧ eval (_runSchema resolver form) (holding v w1)
      = eval (_runSchema resolver form) (holding v w2)
  ∧ exec (_runSchema resolver form) (holding v w1) = holding v w1
  ∧ eval (r1 ← _runSchema resolver form;
          r2 ← _runSchema resolver form;
          mret (r1, r2)) (holding v w1) = (resolver v, resolver v).
Proof. repeat split. Qed.

(** Claim C10.  A well-formed birth date raises no birthDate error
    whatever its value, be it one the calendar disables (later than
    today or earlier than 1900-01-01); when the form has no offending
    field, the record is added to the table with that date. *)
Theorem birthDate_range_is_not_validated (w : Session) (t : Z) :
  get (_formValues (form w)) "birthDate" = VDate (Some t) →
  errors_of (resolver (_formValues (form w))) !! "birthDate" = None
  ∧ (∀ today, disabled today t = true ↔ today < t ∨ t < date_1900_01_01)
  ∧ (offending (_formValues (form w)) = ∅ →
       ∃ r, tableData (exec submit w) = (tableData w ++ [r])%list
            ∧ birthDate (formData r) = t).
Proof.
  intros Ht. split; [|split].
  - rewrite field_error_none, elem_of_offending, Ht. cbn.
    intuition discriminate.
  - intros today. unfold disabled. rewrite orb_true_iff, !Z.ltb_lt. tauto.
  - intros Ho. apply resolver_valid_iff in Ho as [d Hd].
    pose proof (resolver_cases (_formValues (form w))) as H. rewrite Hd in H.
    destruct H as (_ & _ & _ & Hb & _). rewrite Ht in Hb.
    injection Hb as ->.
    eexists. rewrite (submit_valid w d Hd). split; reflexivity.
Qed.

Lemma birthDate_range_is_not_validated_witness :
  get born_in_1800 "birthDate" = VDate (Some date_1800_01_01)
  ∧ disabled (frozen_clock 0) date_1800_01_01 = true
  ∧ ∃ r, tableData (exec submit (holding born_in_1800 (init frozen_clock)))
           = [r]
         ∧ birthDate (formData r) = date_1800_01_01.
Proof.
  destruct (birthDate_range_is_not_validated
              (holding born_in_1800 (init frozen_clock)) date_1800_01_01)
    as (_ & _ & H); [reflexivity|].
  split; [reflexivity|]. split; [reflexivity|].
  apply H. vm_compute. reflexivity.
Defined.

(** ** Further properties of the components *)

Import CalendarUI Facts.

(** *** Class names *)

Lemma append_assoc a b c : (a +:+ b) +:+ c = a +:+ (b +:+ c).
Proof.
  induction a as [|x a IH]; [reflexivity|].
  change (String x ((a +:+ b) +:+ c) = String x (a +:+ (b +:+ c))).
  by f_equal.
Qed.

Lemma append_empty_inv a b : a +:+ b = "" → a = "" ∧ b = "".
Proof. destruct a; [intros H; split; [done | exact H] | discriminate]. Qed.

Lemma kept_nonempty (classes : list (option string)) :
  Forall (λ s, s ≠ "") (omap (λ c, c) (List.filter Boolean classes)).
Proof.
  induction classes as [|[s|] l IH]; cbn; try done.
  destruct (String.eqb s "") eqn:E; cbn; [done|].
  apply eqb_neq in E. by constructor.
Qed.

Lemma join_empty_iff (l : list string) :
  Forall (λ s, s ≠ "") l → RHF.join " " l = "" ↔ l = [].
Proof.
  intros H. split; [|by intros ->].
  destruct H as [|x l Hx Hl]; [done|]. cbn. destruct l.
  - by intros ->.
  - intros E. by apply append_empty_inv in E as [-> _].
Qed.

Lemma glue_empty_l b : glue "" b = b.
Proof. reflexivity. Qed.

Lemma glue_empty_r a : glue a "" = a.
Proof. unfold glue. destruct (String.eqb a "") eqn:E; [by apply String.eqb_eq in E|done]. Qed.

Lemma glue_nonempty a b : a ≠ "" → b ≠ "" → glue a b = a +:+ " " +:+ b.
Proof.
  intros Ha Hb. unfold glue.
  apply eqb_neq in Ha, Hb. by rewrite Ha, Hb.
Qed.

Lemma join_app (a b : list string) :
  Forall (λ s, s ≠ "") a → Forall (λ s, s ≠ "") b →
  RHF.join " " (a ++ b) = glue (RHF.join " " a) (RHF.join " " b).
Proof.
  intros Ha Hb. induction Ha as [|x a Hx Ha IH]; [done|].
  destruct a as [|y a].
  - cbn [app RHF.join]. destruct b as [|z b].
    + by rewrite glue_empty_r.
    + rewrite glue_nonempty; [done..|].
      intros E. apply (join_empty_iff (z :: b)) in E; done.
  - change (RHF.join " " ((x :: y :: a) ++ b))
      with (x +:+ " " +:+ RHF.join " " ((y :: a) ++ b)).
    rewrite IH.
    change (RHF.join " " (x :: y :: a))
      with (x +:+ " " +:+ RHF.join " " (y :: a)).
    assert (HJ : RHF.join " " (y :: a) ≠ "").
    { intros E. apply join_empty_iff in E; done. }
    destruct (decide (RHF.join " " b = "")) as [->|Hne].
    + by rewrite !glue_empty_r.
    + rewrite (glue_nonempty (RHF.join " " (y :: a))); [|done..].
      rewrite glue_nonempty; [|by intros E%append_empty_inv; destruct E|done].
      by rewrite !append_assoc.
Qed.

Lemma combineClasses_glue (l1 l2 : list (option string)) :
  combineClasses (l1 ++ l2)
    = glue (combineClasses l1) (combineClasses l2).
Proof.
  unfold combineClasses. rewrite List.filter_app, omap_app.
  apply join_app; apply kept_nonempty.
Qed.

(** Property X13.  Combining two lists of classes put end to end gives
    the two combined strings side by side, with one space between
    them when both are non-empty and none otherwise. *)
Theorem combineClasses_app (l1 l2 : list (option string)) :
  combineClasses (l1 ++ l2)
    = glue (combineClasses l1) (combineClasses l2).
Proof. apply combineClasses_glue. Qed.

(** Property X14.  A class that is [undefined] or empty leaves no
    trace, wherever it stands in the list, and the combined string is
    empty exactly when every class is [undefined] or empty. *)
Theorem combineClasses_skips_falsy (l1 l2 : list (option string)) :
  combineClasses (l1 ++ None :: l2) = combineClasses (l1 ++ l2)
  ∧ combineClasses (l1 ++ Some "" :: l2) = combineClasses (l1 ++ l2)
  ∧ (combineClasses l1 = "" ↔ Forall (λ c, Boolean c = false) l1).
Proof.
  split; [|split].
  - unfold combineClasses. by rewrite !List.filter_app.
  - unfold combineClasses. by rewrite !List.filter_app.
  - unfold combineClasses. rewrite join_empty_iff by apply kept_nonempty.
    induction l1 as [|c l IH]; [done|]. cbn.
    destruct (Boolean c) eqn:E.
    + destruct c as [s|]; [|done]. cbn. split; [done|].
      intros H. inversion H; congruence.
    + rewrite IH. split; [by constructor | by inversion 1].
Qed.

Lemma glue_nonempty_r a b : b ≠ "" → glue a b ≠ "".
Proof.
  intros Hb. unfold glue. destruct (String.eqb a "") eqn:Ea; [done|].
  apply eqb_neq in Hb as ->. apply eqb_neq in Ea.
  intros E%append_empty_inv. by destruct E.
Qed.

Lemma combineClasses_singleton c :
  c ≠ "" → combineClasses [Some c] = c.
Proof.
  intros Hc. unfold combineClasses. cbn.
  apply eqb_neq in Hc as ->. reflexivity.
Qed.

(** A class list ending in a non-empty class. *)
Lemma combineClasses_snoc l c :
  c ≠ "" →
  combineClasses (l ++ [Some c]) = glue (combineClasses l) c.
Proof.
  intros Hc. by rewrite combineClasses_glue, combineClasses_singleton.
Qed.

Lemma combineClasses_two_nonempty x y :
  y ≠ "" → combineClasses [Some x; Some y] ≠ "".
Proof.
  intros Hy. change (combineClasses ([Some x] ++ [Some y]) ≠ "").
  rewrite combineClasses_snoc by done. by apply glue_nonempty_r.
Qed.

(** Property X15.  For every part of the calendar but the table, when
    the caller gives no class for it, the class string handed to the
    day picker is the calendar's own classes, a space, and the day
    picker's default class for that part. *)
Theorem Calendar_classNames_keep_defaults
    (buttonVariants : string → string) (defaultClassNames : gmap string string)
    (captionLayout buttonVariant : string) (classNames : gmap string string)
    (key c v : string) :
  classNames !! key = None →
  key ≠ "table" →
  defaultClassNames !! key = Some c →
  c ≠ "" →
  Calendar_classNames buttonVariants defaultClassNames captionLayout
    buttonVariant classNames !! key = Some v →
  ∃ own, own ≠ "" ∧ v = own +:+ " " +:+ c.
Proof.
  intros Hcn Hk Hd Hc. unfold Calendar_classNames.
  rewrite lookup_union_r by done.
  intros Hv%elem_of_list_to_map_2. unfold own_classNames in Hv.
  assert (Hmid : ∀ a b : string, a ≠ "" → b ≠ "" →
    (if String.eqb captionLayout "label" then a else b) ≠ "").
  { intros a b Ha Hb. by destruct (String.eqb captionLayout "label"). }
  assert (Hcase : ∀ l, combineClasses l ≠ "" →
    ∃ own, own ≠ "" ∧ combineClasses (l ++ [Some c]) = own +:+ " " +:+ c).
  { intros l Hl. exists (combineClasses l). split; [done|].
    rewrite combineClasses_snoc by done. by apply glue_nonempty. }
  repeat (apply elem_of_cons in Hv as [Hv|Hv];
    [ injection Hv as -> ->; try done; rewrite Hd;
      first
        [ apply (Hcase [Some _]); rewrite combineClasses_singleton; done
        | apply (Hcase [Some _; Some _]);
          apply combineClasses_two_nonempty; first [done | by apply Hmid] ]
    | ]).
  by apply elem_of_nil in Hv.
Qed.

(** *** Sessions driven through the controls *)

Lemma get_insert_eq (v : gmap string jsval) k x : get (<[k := x]> v) k = x.
Proof. unfold get. by rewrite lookup_insert_eq. Qed.

Lemma get_insert_ne (v : gmap string jsval) k k' x :
  k ≠ k' → get (<[k := x]> v) k' = get v k'.
Proof. intros H. unfold get. by rewrite lookup_insert_ne. Qed.

Lemma pickable_later w w' t :
  clock w' = clock w → (reads w ≤ reads w')%nat →
  pickable w t → pickable w' t.
Proof.
  intros Hc Hr [H1 (i & Hi & Ht)]. split; [done|].
  exists i. rewrite Hc. split; [lia | done].
Qed.

Lemma resolver_valid_well_formed v d : resolver v = Valid d → well_formed d.
Proof.
  intros H. pose proof (resolver_cases v) as Hc. rewrite H in Hc.
  destruct Hc as (Ho & Hn & He & _).
  assert (Hnn : "name" ∉ offending v) by (rewrite Ho; apply not_elem_of_empty).
  assert (Hne : "email" ∉ offending v) by (rewrite Ho; apply not_elem_of_empty).
  rewrite elem_of_offending, Hn, He in Hnn, Hne. cbn in Hnn, Hne.
  split.
  - destruct (Z.of_nat (String.length (name d)) <? 2) eqn:E.
    + exfalso. apply Hnn. left. by split.
    + by apply Z.ltb_ge in E.
  - destruct (Regex.test email_regex (email d)); [done|].
    exfalso. apply Hne. right. left. by split.
Qed.

(** An edit of a field other than the birth date. *)
Lemma edit_preserves k x w :
  k ≠ "birthDate" →
  (k = "name" ∨ k = "email" → ∃ s, x = VString s) →
  (k = "department" → ∃ i, x = VString (item_value i)) →
  through_controls w → through_controls (exec (onChange k x) w).
Proof.
  intros Hk Hs Hd (Hn & He & Hdep & Hb & Ht & Ha).
  unfold through_controls, pickable. cbn.
  repeat split.
  - destruct (decide (k = "name")) as [->|Hne].
    + rewrite get_insert_eq. apply Hs. by left.
    + by rewrite get_insert_ne.
  - destruct (decide (k = "email")) as [->|Hne].
    + rewrite get_insert_eq. apply Hs. by right.
    + by rewrite get_insert_ne.
  - destruct (decide (k = "department")) as [->|Hne].
    + rewrite get_insert_eq. right. by apply Hd.
    + by rewrite get_insert_ne.
  - by rewrite get_insert_ne.
  - exact Ht.
  - exact Ha.
Qed.

Lemma click_preserves t w :
  through_controls w → through_controls (exec (Calendar_onDayClick t) w).
Proof.
  intros (Hn & He & Hdep & Hb & Ht & Ha).
  assert (Hlater : ∀ u, pickable w u →
    date_1900_01_01 ≤ u ∧ ∃ i, (i < S (reads w))%nat ∧ u ≤ clock w i).
  { intros u [H1 (i & Hi & Hu)]. split; [done|]. exists i. split; [lia|done]. }
  assert (Htab : Forall (λ r, department (formData r) ∈ department_options
      ∧ date_1900_01_01 ≤ birthDate (formData r)
        ∧ ∃ i, (i < S (reads w))%nat ∧ birthDate (formData r) ≤ clock w i)
      (tableData w)).
  { eapply Forall_impl; [exact Ht|]. cbn. intros r [H1 H2]. split; [done|].
    by apply Hlater. }
  unfold Calendar_onDayClick, exec, mbind, state_bind, Date_now.
  destruct (disabled (clock w (reads w)) t) eqn:Ed;
    unfold through_controls, pickable; cbn.
  - repeat split; try done.
    destruct Hb as [Hb|(u & Hu & Hp)]; [by left|].
    right. exists u. split; [done|]. by apply Hlater.
  - repeat split; try exact Htab; try exact Ha;
      try (by rewrite get_insert_ne).
    rewrite get_insert_eq. case_bool_decide; [by left|].
    right. exists t. split; [done|].
    unfold disabled in Ed. apply orb_false_iff in Ed as [E1 E2].
    apply Z.ltb_ge in E1, E2. split; [done|].
    exists (reads w). split; [lia|done].
Qed.

Lemma submit_preserves w :
  through_controls w → through_controls (exec submit w).
Proof.
  intros (Hn & He & Hdep & Hb & Ht & Ha).
  destruct (resolver (_formValues (form w))) as [d|errs] eqn:E.
  - rewrite (submit_valid w d E).
    pose proof (resolver_cases (_formValues (form w))) as Hc. rewrite E in Hc.
    destruct Hc as (_ & _ & _ & Hbd & Hdd & _).
    unfold through_controls, pickable. cbn -[toString toISOString].
    repeat split.
    + by exists "".
    + by exists "".
    + by left.
    + by left.
    + apply Forall_app. split.
      * eapply Forall_impl; [exact Ht|]. cbn. intros r [H1 [H2 (i & Hi & Hr)]].
        repeat split; try done. exists i. split; [lia|done].
      * apply Forall_singleton. cbn. split.
        -- destruct Hdep as [Hu|[i Hi]]; [congruence|].
           rewrite Hi in Hdd. injection Hdd as <-.
           destruct i; cbn; rewrite !elem_of_cons; auto 10.
        -- destruct Hb as [Hu|(u & Hu & [H1 (i & Hi & Hr)])]; [congruence|].
           rewrite Hu in Hbd. injection Hbd as <-.
           split; [done|]. exists i. split; [lia|done].
    + rewrite List.filter_app, !length_app, Ha. reflexivity.
  - rewrite (submit_invalid w errs E).
    unfold through_controls, pickable. cbn.
    repeat split; try done.
    rewrite List.filter_app, length_app, Ha. cbn. lia.
Qed.

Lemma handle_preserves e w :
  through_controls w → through_controls (exec (handle e) w).
Proof.
  destruct e as [s|s|t|i|c|]; cbn [handle].
  - apply edit_preserves; [done| |done]. intros _. by exists s.
  - apply edit_preserves; [done| |done]. intros _. by exists s.
  - apply click_preserves.
  - apply edit_preserves; [done| |].
    + intros [H|H]; discriminate.
    + intros _. by exists i.
  - apply edit_preserves; [done| |done]. intros [H|H]; discriminate.
  - apply submit_preserves.
Qed.

Lemma run_preserves es w :
  through_controls w → through_controls (run es w).
Proof.
  revert w. induction es as [|e es IH]; intros w H; [done|].
  cbn [run]. by apply IH, handle_preserves.
Qed.

Lemma init_through_controls c : through_controls (init c).
Proof.
  unfold through_controls. cbn. repeat split.
  - by exists "".
  - by exists "".
  - by left.
  - by left.
  - constructor.
Qed.

Lemma run_clock es w : clock (run es w) = clock w.
Proof.
  revert w. induction es as [|e es IH]; intros w; [done|].
  cbn [run]. rewrite IH. apply handle_cases.
Qed.

(** What an event does to the table. *)
Lemma handle_table e w :
  tableData (exec (handle e) w) = tableData w
  ∨ e = press_add_user
    ∧ ∃ d, resolver (_formValues (form w)) = Valid d
           ∧ tableData (exec (handle e) w)
               = (tableData w ++
                   [{| formData := d;
                       id := toString (clock w (reads w));
                       createdAt := toISOString (clock w (S (reads w))) |}])%list.
Proof.
  destruct e as [s|s|t|i|c|]; cbn [handle]; try (by left).
  - left. unfold Calendar_onDayClick, exec, mbind, state_bind, Date_now.
    by destruct (disabled _ _).
  - destruct (resolver (_formValues (form w))) as [d|errs] eqn:E.
    + right. split; [done|]. exists d. split; [done|].
      by rewrite (submit_valid w d E).
    + left. by rewrite (submit_invalid w errs E).
Qed.

(** Each field's entry in the errors is the first issue of its own
    schema on its own value. *)
Lemma errors_entries v :
  errors_of (resolver v) !! "name" = field_error (name_schema (get v "name"))
  ∧ errors_of (resolver v) !! "email"
      = field_error (email_schema (get v "email"))
  ∧ errors_of (resolver v) !! "birthDate"
      = field_error (birthDate_schema (get v "birthDate"))
  ∧ errors_of (resolver v) !! "department"
      = field_error (department_schema (get v "department"))
  ∧ errors_of (resolver v) !! "isActive"
      = field_error (isActive_schema (get v "isActive")).
Proof.
  cbv [resolver zodResolver safeParse formSchema property fields value issues
       field_error errors_of].
  destruct (name_schema_cases (get v "name"))
    as [(n & Hn & _ & ->)|(on & cn & mn & _ & ->)];
  destruct (email_schema_cases (get v "email"))
    as [(e & He & _ & ->)|(oe & ce & me & _ & ->)];
  destruct (birthDate_schema_cases (get v "birthDate"))
    as [(t & Ht & _ & ->)|(ot & ct & mt & _ & ->)];
  destruct (department_schema_cases (get v "department"))
    as [(d & Hd & _ & ->)|(od & cd & md & _ & ->)];
  destruct (isActive_schema_cases (get v "isActive"))
    as [(a & Ha & _ & ->)|(oa & ca & ma & _ & ->)];
  repeat split; vm_compute; reflexivity.
Qed.


(** Property X1.  Whatever the user does, the table only grows at its
    end: the records it held stay where they were, unchanged, and
    there are at most as many new ones as presses of Add User. *)
Theorem table_only_grows (es : list event) (w : Session) :
  tableData w `prefix_of` tableData (run es w)
  ∧ (length (tableData (run es w))
       ≤ length (tableData w) + length (List.filter is_press es))%nat.
Proof.
  revert w. induction es as [|e es IH]; intros w.
  - split; [done | cbn; lia].
  - cbn [run]. destruct (IH (exec (handle e) w)) as [Hp Hl].
    destruct (handle_table e w) as [Ht|[-> (d & _ & Ht)]].
    + rewrite Ht in Hp, Hl. split; [done|].
      cbn [List.filter]. destruct (is_press e); cbn [length]; lia.
    + rewrite Ht in Hp, Hl. split.
      * etrans; [|exact Hp]. by apply prefix_app_r.
      * rewrite length_app in Hl. cbn in *. lia.
Qed.

(** Property X2.  Every record of the table of a session has a name of
    two characters or more and an e-mail address that matches the
    pattern. *)
Theorem records_are_well_formed (c : nat → Z) (es : list event) :
  Forall (λ r, well_formed (formData r)) (tableData (run es (init c))).
Proof.
  assert (H : ∀ w, Forall (λ r, well_formed (formData r)) (tableData w) →
    Forall (λ r, well_formed (formData r)) (tableData (run es w))).
  { induction es as [|e es IH]; intros w Hw; [done|].
    cbn [run]. apply IH.
    destruct (handle_table e w) as [->|[_ (d & Hd & ->)]]; [done|].
    apply Forall_app. split; [done|]. apply Forall_singleton. cbn.
    by eapply resolver_valid_well_formed. }
  apply H. constructor.
Qed.

(** Property X3.  In a session driven through the controls, the
    department of every record is one of the five items of the
    select. *)
Theorem records_have_listed_departments (c : nat → Z) (es : list event) :
  Forall (λ r, department (formData r) ∈ department_options)
    (tableData (run es (init c))).
Proof.
  destruct (run_preserves es (init c) (init_through_controls c))
    as (_ & _ & _ & _ & Ht & _).
  eapply Forall_impl; [exact Ht|]. by intros r [H _].
Qed.

(** Property X4.  In a session driven through the controls, the birth
    date of every record is a day the calendar allows: not before
    1900-01-01 and not after one of the readings of the clock taken
    during the session. *)
Theorem records_have_pickable_birth_dates (c : nat → Z) (es : list event) :
  Forall (λ r, date_1900_01_01 ≤ birthDate (formData r)
               ∧ ∃ i, (i < reads (run es (init c)))%nat
                      ∧ birthDate (formData r) ≤ c i)
    (tableData (run es (init c))).
Proof.
  destruct (run_preserves es (init c) (init_through_controls c))
    as (_ & _ & _ & _ & Ht & _).
  eapply Forall_impl; [exact Ht|]. cbn.
  intros r [_ [H1 (i & Hlt & Hi)]]. split; [done|].
  exists i. split; [done|]. by rewrite run_clock in Hi.
Qed.

(** Property X5.  The success alert is shown once for each record
    added and never otherwise: a session has as many alerts as its
    table has records. *)
Theorem one_alert_per_record (c : nat → Z) (es : list event) :
  length (List.filter is_alert (effects (run es (init c))))
    = length (tableData (run es (init c))).
Proof.
  by destruct (run_preserves es (init c) (init_through_controls c))
    as (_ & _ & _ & _ & _ & Ha).
Qed.

(** The ids of the table follow the readings that became ids, which
    are all different readings, none taken before the session
    started. *)
Lemma ids_follow_readings es w :
  id <$> tableData (run es w)
    = ((id <$> tableData w)
        ++ ((λ i, toString (clock w i)) <$> id_readings es w))%list
  ∧ Forall (λ i, (reads w ≤ i)%nat) (id_readings es w)
  ∧ NoDup (id_readings es w).
Proof.
  revert w. induction es as [|e es IH]; intros w.
  - cbn. rewrite app_nil_r. repeat split; constructor.
  - cbn [run id_readings].
    destruct (IH (exec (handle e) w)) as (Hid & Hge & Hnd).
    destruct (handle_cases e w) as [Hc Hr]. rewrite Hc in Hid.
    assert (Hmono : (reads w ≤ reads (exec (handle e) w))%nat).
    { destruct Hr as [[_ Hr]|(r & _ & _ & Hr)]; lia. }
    assert (Hge' : Forall (λ i, (reads w ≤ i)%nat)
                     (id_readings es (exec (handle e) w))).
    { eapply Forall_impl; [exact Hge|]. cbn. intros i Hi. lia. }
    destruct (handle_table e w) as [Ht|[-> (d & Hd & Ht)]].
    + assert (Hnone : match e, resolver (_formValues (form w)) with
                      | press_add_user, Valid _ => [reads w]
                      | _, _ => []
                      end = []).
      { destruct e; try reflexivity.
        destruct (resolver (_formValues (form w))) as [d|errs] eqn:E;
          [|reflexivity].
        exfalso. cbn [handle] in Ht. rewrite (submit_valid w d E) in Ht.
        cbn in Ht. apply (f_equal length) in Ht.
        rewrite length_app in Ht. cbn in Ht. lia. }
      rewrite Hnone. cbn [app]. rewrite Hid, Ht. done.
    + rewrite Hd. cbn [handle] in *.
      assert (Hreads : reads (exec submit w) = S (S (reads w))).
      { by rewrite (submit_valid w d Hd). }
      rewrite Hid, Ht, fmap_app, <- app_assoc. cbn -[toString toISOString].
      split; [done|]. split.
      * apply Forall_cons. split; [lia | exact Hge'].
      * apply NoDup_cons. split; [|done].
        intros Hin. rewrite Forall_forall in Hge.
        specialize (Hge _ Hin). lia.
Qed.

(** Property X6.  The ids of the records of a session are the decimal
    texts of the readings [Date.now()] took at the successful
    submissions, in order, and those are different readings of the
    clock: two records share an id exactly when the clock gave the
    same value at their two submissions, and the ids are pairwise
    distinct exactly when those values are. *)
Theorem ids_collide_only_on_equal_readings (c : nat → Z) (es : list event) :
  id <$> tableData (run es (init c))
    = (λ i, toString (c i)) <$> id_readings es (init c)
  ∧ NoDup (id_readings es (init c))
  ∧ (∀ j k,
       (id <$> tableData (run es (init c))) !! j
         = (id <$> tableData (run es (init c))) !! k
       ↔ (c <$> id_readings es (init c)) !! j
           = (c <$> id_readings es (init c)) !! k)
  ∧ (NoDup (id <$> tableData (run es (init c)))
       ↔ NoDup (c <$> id_readings es (init c))).
Proof.
  destruct (ids_follow_readings es (init c)) as (Hid & _ & Hnd).
  cbn in Hid.
  assert (Hids : id <$> tableData (run es (init c))
                   = toString <$> (c <$> id_readings es (init c))).
  { rewrite Hid. by rewrite <- list_fmap_compose. }
  split; [exact Hid|]. split; [exact Hnd|]. split.
  - intros j k. rewrite Hids, !list_lookup_fmap.
    destruct (id_readings es (init c) !! j), (id_readings es (init c) !! k);
      cbn; split; intros H; try done.
    + injection H as H. apply toString_inj in H. by rewrite H.
    + injection H as H. by rewrite H.
  - rewrite Hids. split.
    + apply NoDup_fmap_1.
    + apply NoDup_fmap_2. intros a b. apply toString_inj.
Qed.

(** Property X7.  Pressing Add User a second time right after a
    successful submission adds nothing: the form has been reset, and
    the second submission fails on name, email, birthDate and
    department. *)
Theorem second_press_adds_nothing (w : Session) (d : FormData) :
  resolver (_formValues (form w)) = Valid d →
  tableData (exec submit (exec submit w)) = tableData (exec submit w)
  ∧ dom (errors (_formState (form (exec submit (exec submit w)))))
      = {[ "name"; "email"; "birthDate"; "department" ]}.
Proof.
  intros H.
  destruct (resolver defaultValues) as [d'|e] eqn:E;
    [vm_compute in E; discriminate|].
  assert (Hv : resolver (_formValues (form (exec submit w))) = Invalid e).
  { by rewrite (submit_valid w d H). }
  rewrite (submit_invalid _ e Hv). split; [reflexivity|]. cbn.
  change e with (errors_of (Invalid (A := FormData) e)). rewrite <- E.
  rewrite errors_of_dom. vm_compute. reflexivity.
Qed.

Lemma second_press_adds_nothing_witness :
  resolver scenario_valid
    = Valid {| name := "Al"; email := "al@example.com";
               birthDate := 946684800000; department := "engineering";
               isActive := true |}
  ∧ length (tableData (exec submit (exec submit
              (holding scenario_valid (init frozen_clock))))) = 1%nat.
Proof.
  split; [vm_compute; reflexivity|].
  destruct (second_press_adds_nothing
              (holding scenario_valid (init frozen_clock))
              {| name := "Al"; email := "al@example.com";
                 birthDate := 946684800000; department := "engineering";
                 isActive := true |}) as [Ht _]; [vm_compute; reflexivity|].
  rewrite Ht. vm_compute. reflexivity.
Defined.

(** Property X8.  An edit writes to its own field only: the value of
    every other field and the table are as before. *)
Theorem edits_touch_one_field (e : event) (w : Session) (f k : string) :
  field_of e = Some f →
  k ≠ f →
  get (_formValues (form (exec (handle e) w))) k
    = get (_formValues (form w)) k
  ∧ tableData (exec (handle e) w) = tableData w.
Proof.
  intros Hf Hk.
  destruct e as [s|s|t|i|c|]; cbn in Hf; try discriminate;
    injection Hf as <-; cbn [handle].
  1, 2, 4, 5: split; [cbn; by rewrite get_insert_ne | reflexivity].
  unfold Calendar_onDayClick, exec, mbind, state_bind, Date_now.
  destruct (disabled _ _); cbn; [done|].
  split; [by rewrite get_insert_ne | reflexivity].
Qed.

Lemma edits_touch_one_field_witness :
  field_of (type_name "Al") = Some "name"
  ∧ "email" ≠ "name"
  ∧ get (_formValues (form (exec (handle (type_name "Al"))
           (holding scenario_invalid (init frozen_clock))))) "email"
      = VString "bad".
Proof.
  split; [reflexivity|]. split; [discriminate|].
  destruct (edits_touch_one_field (type_name "Al")
              (holding scenario_invalid (init frozen_clock)) "name" "email")
    as [Hg _]; [reflexivity | discriminate |].
  rewrite Hg. reflexivity.
Defined.

(** Property X9.  The checkbox handler of the guide stores a boolean
    whatever the checkbox emits, [true] for a checked box and [false]
    otherwise, so that [isActive] never fails validation. *)
Theorem guide_handler_stores_a_boolean (c : CheckedState) (w : Session) :
  get (_formValues (form (exec (Checkbox_onCheckedChange_guide c) w)))
      "isActive"
    = VBool (match c with checked b => b | indeterminate => false end)
  ∧ "isActive" ∉ offending
      (_formValues (form (exec (Checkbox_onCheckedChange_guide c) w))).
Proof.
  assert (H : get (_formValues
                (form (exec (Checkbox_onCheckedChange_guide c) w))) "isActive"
    = VBool (match c with checked b => b | indeterminate => false end)).
  { destruct c as [[|]|]; cbn; by rewrite get_insert_eq. }
  split; [exact H|].
  rewrite elem_of_offending, H. cbn. intuition discriminate.
Qed.

(** Property X10.  For a name that is a text, validation reports
    "Name must be at least 2 characters." when it has fewer than two
    characters and no name error otherwise. *)
Theorem name_error_message (v : gmap string jsval) (s : string) :
  get v "name" = VString s →
  errors_of (resolver v) !! "name"
    = if Z.of_nat (String.length s) <? 2
      then Some {| type := too_small;
                   message := "Name must be at least 2 characters." |}
      else None.
Proof.
  intros H. destruct (errors_entries v) as (-> & _). rewrite H.
  unfold name_schema, min, check, field_error. cbn.
  by destruct (Z.of_nat (String.length s) <? 2).
Qed.

Lemma name_error_message_witness :
  get scenario_invalid "name" = VString "A"
  ∧ errors_of (resolver scenario_invalid) !! "name"
      = Some {| type := too_small;
                message := "Name must be at least 2 characters." |}.
Proof.
  split; [reflexivity|].
  exact (name_error_message scenario_invalid "A" eq_refl).
Defined.

Lemma email_entry (v : gmap string jsval) (s : string) :
  get v "email" = VString s →
  errors_of (resolver v) !! "email"
    = if Regex.test email_regex s then None
      else Some {| type := invalid_format;
                   message := "Please enter a valid email address." |}.
Proof.
  intros H. destruct (errors_entries v) as (_ & -> & _). rewrite H.
  unfold email_schema, Zod.email, check, field_error. cbn.
  by destruct (Regex.test email_regex s).
Qed.

(** Property X11.  For an e-mail that is a text, validation reports
    "Please enter a valid email address." when the text does not match
    the e-mail pattern and no email error when it does. *)
Theorem email_error_message (v : gmap string jsval) (s : string) :
  get v "email" = VString s →
  errors_of (resolver v) !! "email"
    = if Regex.test email_regex s then None
      else Some {| type := invalid_format;
                   message := "Please enter a valid email address." |}.
Proof. apply email_entry. Qed.

Lemma email_error_message_witness :
  get scenario_invalid "email" = VString "bad"
  ∧ errors_of (resolver scenario_invalid) !! "email"
      = Some {| type := invalid_format;
                message := "Please enter a valid email address." |}.
Proof.
  split; [reflexivity|].
  exact (email_error_message scenario_invalid "bad" eq_refl).
Defined.

(** Property X12.  When the birth date and the department are unset,
    their errors carry the default messages of the validation library
    for a value of the wrong type; the [required_error] texts of the
    schema are not shown. *)
Theorem unset_fields_get_default_messages (v : gmap string jsval) :
  get v "birthDate" = VUndefined →
  get v "department" = VUndefined →
  errors_of (resolver v) !! "birthDate"
    = Some {| type := invalid_type;
              message := "Invalid input: expected date, received undefined" |}
  ∧ errors_of (resolver v) !! "department"
    = Some {| type := invalid_type;
              message := "Invalid input: expected string, received undefined" |}.
Proof.
  intros Hb Hd. destruct (errors_entries v) as (_ & _ & -> & -> & _).
  rewrite Hb, Hd. split; reflexivity.
Qed.

Lemma unset_fields_get_default_messages_witness :
  get scenario_invalid "birthDate" = VUndefined
  ∧ get scenario_invalid "department" = VUndefined
  ∧ message <$> errors_of (resolver scenario_invalid) !! "birthDate"
      = Some "Invalid input: expected date, received undefined".
Proof.
  split; [reflexivity|]. split; [reflexivity|].
  destruct (unset_fields_get_default_messages scenario_invalid eq_refl eq_refl)
    as [-> _].
  reflexivity.
Defined.

Lemma Calendar_classNames_keep_defaults_witness :
  (∅ : gmap string string) !! "root" = None
  ∧ "root" ≠ "table"
  ∧ ({[ "root" := "rdp-root" ]} : gmap string string) !! "root"
      = Some "rdp-root"
  ∧ "rdp-root" ≠ ""
  ∧ Calendar_classNames (λ _, "") {[ "root" := "rdp-root" ]} "label" "ghost" ∅
      !! "root" = Some "w-fit rdp-root"
  ∧ ∃ own, own ≠ "" ∧ "w-fit rdp-root" = own +:+ " " +:+ "rdp-root".
Proof.
  assert (H1 : (∅ : gmap string string) !! "root" = None) by reflexivity.
  assert (H2 : "root" ≠ "table") by discriminate.
  assert (H3 : ({[ "root" := "rdp-root" ]} : gmap string string) !! "root"
                 = Some "rdp-root") by reflexivity.
  assert (H4 : "rdp-root" ≠ "") by discriminate.
  assert (H5 : Calendar_classNames (λ _, "") {[ "root" := "rdp-root" ]}
                 "label" "ghost" ∅ !! "root" = Some "w-fit rdp-root")
    by (vm_compute; reflexivity).
  repeat (split; [assumption|]).
  exact (Calendar_classNames_keep_defaults _ _ _ _ _ _ _ _ H1 H2 H3 H4 H5).
Defined.

(** Property X16.  The caller's [className] comes after the calendar's
    own classes, with a space in between; without one, or with an
    empty one, the class string is the calendar's own and ends without
    a space. *)
Theorem Calendar_className_appends (className : string) :
  Calendar_className (Some className)
    = glue (Calendar_className None) className
  ∧ Calendar_className (Some "") = Calendar_className None.
Proof.
  split.
  - unfold Calendar_className.
    change [?a; ?b; ?c; Some className]
      with ([a; b; c] ++ [Some className])%list.
    rewrite combineClasses_glue. f_equal.
    unfold combineClasses. cbn. by destruct (String.eqb className "") eqn:E;
      [apply String.eqb_eq in E as ->|].
  - reflexivity.
Qed.

(** *** What [Regex.test] decides *)
Import Regex.

Lemma append_nil_r a : a +:+ "" = a.
Proof.
  induction a as [|x a IH]; [reflexivity|].
  change (String x (a +:+ "") = String x a). by f_equal.
Qed.

Lemma nullable_lang r : nullable r = true ↔ lang r "".
Proof.
  induction r as [| |cls|r1 IH1 r2 IH2|r1 IH1 r2 IH2|r1 IH1|r1 IH1 r2 IH2|r1 IH1];
    cbn.
  - split; [discriminate | done].
  - done.
  - split; [discriminate | by intros (c & H & _)].
  - rewrite andb_true_iff, IH1, IH2. split.
    + intros [H1 H2]. by exists "", "".
    + intros (s1 & s2 & E & H1 & H2). symmetry in E.
      apply append_empty_inv in E as [-> ->]. done.
  - by rewrite orb_true_iff, IH1, IH2.
  - split; [intros _; constructor | done].
  - by rewrite andb_true_iff, IH1, IH2.
  - rewrite negb_true_iff, <- IH1. by destruct (nullable r1).
Qed.

Lemma cat_lang r1 r2 s : lang (cat r1 r2) s ↔ lang (Cat r1 r2) s.
Proof.
  destruct r1; cbn; try done.
  - split; [done | by intros (s1 & s2 & _ & [] & _)].
  - split.
    + intros H. by exists "", s.
    + by intros (s1 & s2 & -> & -> & H).
Qed.

Lemma alt_lang r1 r2 s : lang (alt r1 r2) s ↔ lang (Alt r1 r2) s.
Proof.
  destruct r1, r2; cbn; tauto.
Qed.

Lemma star_cons_inv (L : string → Prop) c s :
  star L (String c s) →
  ∃ s1 s2, s = s1 +:+ s2 ∧ L (String c s1) ∧ star L s2.
Proof.
  intros H. remember (String c s) as t eqn:E.
  induction H as [|s1 s2 H1 H2 IH]; [discriminate|].
  destruct s1 as [|c' s1].
  - apply IH. exact E.
  - injection E as -> <-. by exists s1, s2.
Qed.

Lemma deriv_lang c r s : lang (deriv c r) s ↔ lang r (String c s).
Proof.
  revert s.
  induction r as [| |cls|r1 IH1 r2 IH2|r1 IH1 r2 IH2|r1 IH1|r1 IH1 r2 IH2|r1 IH1];
    intros s; cbn [deriv].
  - done.
  - cbn. split; [done | discriminate].
  - destruct (cls c) eqn:E; cbn.
    + split; [intros ->; by exists c | by intros (c' & [= _ ->] & _)].
    + split; [done | intros (c' & [= <- _] & H); congruence].
  - assert (Hcat : lang (cat (deriv c r1) r2) s ↔
      ∃ s1 s2, s = s1 +:+ s2 ∧ lang r1 (String c s1) ∧ lang r2 s2).
    { rewrite cat_lang. cbn. split.
      - intros (s1 & s2 & E & H1 & H2). exists s1, s2. by rewrite <- IH1.
      - intros (s1 & s2 & E & H1 & H2). exists s1, s2. by rewrite IH1. }
    destruct (nullable r1) eqn:En.
    + rewrite alt_lang. cbn [lang]. rewrite Hcat, IH2. split.
      * intros [(s1 & s2 & -> & H1 & H2)|H].
        -- by exists (String c s1), s2.
        -- exists "", (String c s). repeat split; [|done].
           by apply nullable_lang.
      * intros (t1 & t2 & E & H1 & H2). destruct t1 as [|c' t1].
        -- right. cbn in E. by rewrite E.
        -- injection E as <- ->. left. by exists t1, t2.
    + rewrite Hcat. cbn [lang]. split.
      * intros (s1 & s2 & -> & H1 & H2). by exists (String c s1), s2.
      * intros (t1 & t2 & E & H1 & H2). destruct t1 as [|c' t1].
        -- apply nullable_lang in H1. congruence.
        -- injection E as <- ->. by exists t1, t2.
  - rewrite alt_lang. cbn. by rewrite IH1, IH2.
  - rewrite cat_lang. cbn [lang]. split.
    + intros (s1 & s2 & -> & H1 & H2). apply IH1 in H1.
      by apply (star_app _ (String c s1) s2).
    + intros H. apply star_cons_inv in H as (s1 & s2 & -> & H1 & H2).
      exists s1, s2. by rewrite IH1.
  - cbn. by rewrite IH1, IH2.
  - cbn. by rewrite IH1.
Qed.

Lemma test_lang r s : test r s = true ↔ lang r s.
Proof.
  revert r. induction s as [|c s IH]; intros r; cbn [test].
  - apply nullable_lang.
  - by rewrite IH, deriv_lang.
Qed.

Lemma all_chars_app P a b :
  all_chars P (a +:+ b) = all_chars P a && all_chars P b.
Proof.
  induction a as [|x a IH]; [reflexivity|].
  change (P x && all_chars P (a +:+ b) = P x && all_chars P a && all_chars P b).
  rewrite IH. by rewrite andb_assoc.
Qed.

Lemma has_char_app x a b :
  has_char x (a +:+ b) = has_char x a || has_char x b.
Proof.
  induction a as [|y a IH]; [reflexivity|].
  change (char x y || has_char x (a +:+ b)
            = char x y || has_char x a || has_char x b).
  rewrite IH. by rewrite orb_assoc.
Qed.

Lemma lang_all_chars P r s :
  classes_within P r → lang r s → all_chars P s = true.
Proof.
  revert s.
  induction r as [| |cls|r1 IH1 r2 IH2|r1 IH1 r2 IH2|r1 IH1|r1 _ r2 _|r1 _];
    intros s Hc H; cbn in Hc, H; try done.
  - by rewrite H.
  - destruct H as (c & -> & Hcls). cbn. by rewrite (Hc c Hcls).
  - destruct Hc as [Hc1 Hc2], H as (s1 & s2 & -> & H1 & H2).
    by rewrite all_chars_app, (IH1 s1), (IH2 s2).
  - destruct Hc as [Hc1 Hc2], H as [H|H]; auto.
  - induction H as [|s1 s2 H1 H2 IH]; [done|].
    by rewrite all_chars_app, (IH1 s1), IH.
Qed.

Lemma without_char x P s :
  (∀ c, P c = true → char x c = false) →
  all_chars P s = true → has_char x s = false.
Proof.
  intros HP. induction s as [|c s IH]; [done|]. cbn.
  intros [Hc Hs]%andb_true_iff. by rewrite (HP c Hc), IH.
Qed.

Lemma char_true x c : char x c = true → c = x.
Proof.
  unfold char, code. intros H%N.eqb_eq.
  rewrite <- (ascii_N_embedding c), <- (ascii_N_embedding x). by rewrite H.
Qed.

(** None of the classes of the e-mail pattern holds the at sign. *)
Lemma email_classes_exclude_at c :
  (local_char c = true → char "@" c = false)
  ∧ (local_last c = true → char "@" c = false)
  ∧ (alnum c = true → char "@" c = false)
  ∧ (label_char c = true → char "@" c = false)
  ∧ (letter c = true → char "@" c = false)
  ∧ (char "." c = true → char "@" c = false).
Proof.
  destruct c as [[] [] [] [] [] [] [] []]; vm_compute; repeat split; congruence.
Qed.

Lemma email_parts (s : string) :
  test email_regex s = true →
  ∃ local domain,
    s = local +:+ "@" +:+ domain
    ∧ local ≠ ""
    ∧ has_char "@" local = false
    ∧ has_char "@" domain = false
    ∧ has_char "." domain = true.
Proof.
  intros H%test_lang. unfold email_regex in H.
  destruct H as (_ & _ & s1 & r1 & -> & H1 & H).
  destruct H as (s2 & r2 & -> & H2 & H).
  destruct H as (s3 & r3 & -> & H3 & H).
  destruct H as (s4 & s5 & -> & H4 & H5).
  destruct H3 as (c3 & -> & ->%char_true).
  set (notat := λ c, negb (char "@" c)).
  assert (Hin : ∀ cls : ascii → bool,
    (∀ c, cls c = true → char "@" c = false) →
    ∀ c, cls c = true → notat c = true).
  { intros cls Hcls c Hc. unfold notat. by rewrite (Hcls c Hc). }
  assert (Hall : ∀ r t, classes_within notat r → lang r t →
    has_char "@" t = false).
  { intros r t Hr Ht. apply (without_char _ notat).
    - intros c. unfold notat. by rewrite negb_true_iff.
    - by apply (lang_all_chars notat r). }
  assert (E1 : has_char "@" s1 = false).
  { apply (Hall (Star (Chr local_char))); [|done].
    cbn. apply Hin. intros c. apply email_classes_exclude_at. }
  assert (E2 : has_char "@" s2 = false).
  { apply (Hall (Chr local_last)); [|done].
    cbn. apply Hin. intros c. apply email_classes_exclude_at. }
  assert (E4 : has_char "@" s4 = false).
  { eapply Hall; [|exact H4].
    cbn. repeat split; apply Hin; intros c; apply email_classes_exclude_at. }
  assert (E5 : has_char "@" s5 = false).
  { eapply Hall; [|exact H5].
    cbn. repeat split; apply Hin; intros c; apply email_classes_exclude_at. }
  exists (s1 +:+ s2), (s4 +:+ s5). repeat split.
  - by rewrite !append_assoc.
  - destruct H2 as (c2 & -> & _). apply append_nonempty_r.
  - by rewrite has_char_app, E1, E2.
  - by rewrite has_char_app, E4, E5.
  - rewrite has_char_app. apply orb_true_iff. left.
    destruct H4 as (t1 & t2 & -> & Ht1 & _).
    destruct Ht1 as (a & b & -> & _ & (b1 & b2 & -> & _ & Hdot)).
    destruct Hdot as (c & -> & ->%char_true).
    rewrite !has_char_app. cbn. by rewrite !orb_true_r.
Qed.

(** Property X17.  An address that matches the e-mail pattern has
    exactly one at sign, with something before it and a dot somewhere
    after it. *)
Theorem accepted_email_shape (s : string) :
  test email_regex s = true →
  ∃ local domain,
    s = local +:+ "@" +:+ domain
    ∧ local ≠ ""
    ∧ has_char "@" local = false
    ∧ has_char "@" domain = false
    ∧ has_char "." domain = true.
Proof. apply email_parts. Qed.

Lemma accepted_email_shape_witness :
  test email_regex "al@example.com" = true
  ∧ ∃ local domain,
      "al@example.com" = local +:+ "@" +:+ domain
      ∧ local ≠ ""
      ∧ has_char "@" local = false
      ∧ has_char "@" domain = false
      ∧ has_char "." domain = true.
Proof.
  split; [vm_compute; reflexivity|].
  apply accepted_email_shape. vm_compute. reflexivity.
Defined.

(** Property X18.  An e-mail text without an at sign always gets the
    error "Please enter a valid email address.". *)
Theorem email_without_at_sign_is_rejected (v : gmap string jsval) (s : string) :
  get v "email" = VString s →
  has_char "@" s = false →
  errors_of (resolver v) !! "email"
    = Some {| type := invalid_format;
              message := "Please enter a valid email address." |}.
Proof.
  intros Hv Hs. rewrite (email_entry v s Hv).
  destruct (test email_regex s) eqn:E; [|done].
  apply email_parts in E as (l & d & -> & _ & _ & _ & _).
  rewrite !has_char_app in Hs. cbn in Hs.
  by rewrite orb_true_r in Hs.
Qed.

Lemma star_of_all_chars P s :
  all_chars P s = true → lang (Star (Chr P)) s.
Proof.
  induction s as [|c s IH]; cbn.
  - intros _. constructor.
  - intros [Hc Hs]%andb_true_iff.
    apply (star_app _ (String c "") s); [by exists c | by apply IH].
Qed.

Lemma email_classes_exclude_newline c :
  (local_char c = true → dot c = true)
  ∧ (local_last c = true → dot c = true)
  ∧ (alnum c = true → dot c = true)
  ∧ (label_char c = true → dot c = true)
  ∧ (letter c = true → dot c = true)
  ∧ (char "." c = true → dot c = true)
  ∧ (char "@" c = true → dot c = true).
Proof.
  destruct c as [[] [] [] [] [] [] [] []]; vm_compute; repeat split; congruence.
Qed.

(** Property X19.  An address that starts with a dot, or that has two
    dots in a row anywhere, does not match the e-mail pattern. *)
Theorem email_dots_are_rejected (a b : string) :
  test email_regex ("." +:+ b) = false
  ∧ test email_regex (a +:+ ".." +:+ b) = false.
Proof.
  assert (Hany : ∀ t, lang (Star (Chr anychar)) t).
  { intros t. by apply star_of_all_chars; induction t. }
  split.
  - destruct (test email_regex ("." +:+ b)) eqn:E; [|done].
    apply test_lang in E. destruct E as (Hno & _). exfalso. apply Hno.
    exists ".", b. repeat split; [|apply Hany]. by exists "."%char.
  - destruct (test email_regex (a +:+ ".." +:+ b)) eqn:E; [|done].
    apply test_lang in E. destruct E as (_ & Hno & Hmain).
    exfalso. apply Hno.
    assert (Hdot : all_chars dot (a +:+ ".." +:+ b) = true).
    { eapply lang_all_chars; [|exact Hmain].
      cbn. repeat split; intros c; apply email_classes_exclude_newline. }
    rewrite all_chars_app in Hdot. apply andb_true_iff in Hdot as [Ha _].
    exists a, (".." +:+ b). repeat split; [by apply star_of_all_chars|].
    exists ".", ("." +:+ b). repeat split; [by exists "."%char|].
    exists ".", b. repeat split; [by exists "."%char | apply Hany].
Qed.

(** Property X20.  What the checkbox of the component stores fails
    validation exactly when the checkbox emits [indeterminate]. *)
Theorem checkbox_fails_validation_iff_indeterminate
    (c : CheckedState) (w : Session) :
  "isActive" ∈ offending
      (_formValues (form (exec (Checkbox_onCheckedChange c) w)))
    ↔ c = indeterminate.
Proof.
  assert (H : get (_formValues (form (exec (Checkbox_onCheckedChange c) w)))
                "isActive" = checked_value c).
  { cbn. by rewrite get_insert_eq. }
  rewrite elem_of_offending, H. destruct c as [b|]; cbn.
  - split; [intuition discriminate | discriminate].
  - split; [done|]. intros _. do 4 right. by split.
Qed.

(** The form of a session in which the checkbox is left alone holds
    [false] for [isActive], and so does every record. *)
Lemma unchecked_preserved es w :
  Forall (λ e, field_of e ≠ Some "isActive") es →
  get (_formValues (form w)) "isActive" = VBool false →
  Forall (λ r, isActive (formData r) = false) (tableData w) →
  Forall (λ r, isActive (formData r) = false) (tableData (run es w)).
Proof.
  revert w. induction es as [|e es IH]; intros w Hes Hv Ht; [done|].
  apply Forall_cons in Hes as [He Hes]. cbn [run]. apply IH; [done|..].
  - destruct e as [s|s|t|i|c|]; cbn [handle].
    1, 2, 4: cbn; by rewrite get_insert_ne.
    + unfold Calendar_onDayClick, exec, mbind, state_bind, Date_now.
      destruct (disabled _ _); cbn; [done | by rewrite get_insert_ne].
    + done.
    + destruct (resolver (_formValues (form w))) as [d|errs] eqn:E.
      * by rewrite (submit_valid w d E).
      * by rewrite (submit_invalid w errs E).
  - destruct (handle_table e w) as [->|[_ (d & Hd & ->)]]; [done|].
    apply Forall_app. split; [done|]. apply Forall_singleton. cbn.
    pose proof (resolver_cases (_formValues (form w))) as Hc.
    rewrite Hd in Hc. destruct Hc as (_ & _ & _ & _ & _ & [Ha|[_ Ha]]).
    + rewrite Hv in Ha. by injection Ha as <-.
    + done.
Qed.

(** Property X21.  In a session in which the checkbox is never
    touched, every record is inactive. *)
Theorem untouched_checkbox_means_inactive (c : nat → Z) (es : list event) :
  Forall (λ e, field_of e ≠ Some "isActive") es →
  Forall (λ r, isActive (formData r) = false) (tableData (run es (init c))).
Proof.
  intros H. apply unchecked_preserved; [done | reflexivity | constructor].
Qed.

Lemma untouched_checkbox_means_inactive_witness :
  Forall (λ e, field_of e ≠ Some "isActive")
    [type_name "Bo"; type_email "bo@example.com"; click_day 631152000000;
     choose_department sales; press_add_user]
  ∧ Forall (λ r, isActive (formData r) = false)
      (tableData (run
        [type_name "Bo"; type_email "bo@example.com"; click_day 631152000000;
         choose_department sales; press_add_user] (init frozen_clock))).
Proof.
  assert (H : Forall (λ e, field_of e ≠ Some "isActive")
    [type_name "Bo"; type_email "bo@example.com"; click_day 631152000000;
     choose_department sales; press_add_user]).
  { repeat constructor; discriminate. }
  split; [exact H|].
  exact (untouched_checkbox_means_inactive frozen_clock _ H).
Defined.

Lemma email_without_at_sign_is_rejected_witness :
  get scenario_invalid "email" = VString "bad"
  ∧ has_char "@" "bad" = false
  ∧ errors_of (resolver scenario_invalid) !! "email"
      = Some {| type := invalid_format;
                message := "Please enter a valid email address." |}.
Proof.
  split; [reflexivity|]. split; [reflexivity|].
  exact (email_without_at_sign_is_rejected scenario_invalid "bad"
           eq_refl eq_refl).
Defined.
